(** * io_block.py: capture of the two standard text channels

    A shallow embedding of [src/io_block.py].  The Python classes are

    - [StdCapture]  (one channel: swaps [sys.stdout] / [sys.stderr] between
      the stream found at construction time and a private [StringIO]),
    - [IOManager]   (a pair of [StdCapture], driven out first, err second),
    - [IOCapture]   (the facade holding [Optional[IOManager]] and the
      [capture] context manager).

    Mutable Python state is a [world]: the attributes of the [sys] module
    and a heap of objects addressed by location.  Methods are computations
    in a state-and-exception monad [M]; a raised exception keeps the
    mutations made before it, as in Python. *)

From stdpp Require Import gmap strings list fin_maps.
From Stdlib Require Import ZArith String Ascii.

Local Open Scope string_scope.
Local Open Scope Z_scope.

(** ** Exceptions and results *)

Inductive exn : Type :=
| AssertionError            (* a failed [assert] *)
| AttributeError            (* attribute or method missing on the receiver *)
| ValueError                (* I/O operation on closed file *)
| TypeError                 (* receiver does not support item assignment *)
| KeyError                  (* missing dictionary key *)
| Failure (tag : nat).      (* an exception raised by the unit of work *)

Inductive result (A : Type) : Type :=
| Ok (a : A)
| Raise (e : exn).
Arguments Ok {A} a.
Arguments Raise {A} e.

(** ** Text helpers: slices of a Python [str] *)

Fixpoint str_take (n : nat) (s : string) : string :=
  match n, s with
  | S n', String c s' => String c (str_take n' s')
  | _, _ => EmptyString
  end.

Fixpoint str_drop (n : nat) (s : string) : string :=
  match n, s with
  | S n', String _ s' => str_drop n' s'
  | _, _ => s
  end.

(** [n] NUL characters: what [StringIO.write] pads with when the position
    lies beyond the end of the buffer. *)
Fixpoint str_nul (n : nat) : string :=
  match n with
  | O => EmptyString
  | S n' => String Ascii.zero (str_nul n')
  end.

(** ** [io.StringIO]: an in-memory text stream with a position *)

Module StringIO.

Record t : Type := mk { value : string; pos : nat; closed : bool }.

(** [StringIO()] *)
Definition new : t := mk "" 0 false.

(** [seek(p)]: absolute positioning, answers the new position. *)
Definition seek (p : nat) (b : t) : result nat * t :=
  if closed b then (Raise ValueError, b)
  else (Ok p, mk (value b) p false).

(** [read()]: everything from the position to the end; the position
    moves to the end (it stays where it is when already beyond). *)
Definition read (b : t) : result string * t :=
  if closed b then (Raise ValueError, b)
  else (Ok (str_drop (pos b) (value b)),
        mk (value b) (Nat.max (pos b) (String.length (value b))) false).

(** [truncate()]: cut the text at the current position. *)
Definition truncate (b : t) : result nat * t :=
  if closed b then (Raise ValueError, b)
  else (Ok (pos b), mk (str_take (pos b) (value b)) (pos b) false).

(** [write(s)]: overwrite at the position, growing the text as needed
    (NUL padding when the position is past the end); writing the empty
    string changes nothing. *)
Definition write (s : string) (b : t) : result nat * t :=
  if closed b then (Raise ValueError, b)
  else if Nat.eqb (String.length s) 0 then (Ok 0%nat, b)
  else (Ok (String.length s),
        mk (str_take (pos b) (value b)
              +:+ str_nul (pos b - String.length (value b))
              +:+ s
              +:+ str_drop (pos b + String.length s) (value b))
           (pos b + String.length s) false).

(** [close()]: idempotent. *)
Definition close (b : t) : result unit * t :=
  (Ok tt, mk (value b) (pos b) true).

End StringIO.

(** ** Objects, the heap and the [sys] module *)

Definition loc := positive.

(** Values a caller may keep in the sink dictionary. *)
Inductive pyval : Type :=
| VStr (s : string)
| VInt (n : Z)
| VNone.

(** [StdCapture]'s three attributes are assigned in [__init__] and by no
    other method, so an instance is an immutable record. *)
Record StdCapture : Type :=
  { name : string;      (* "stdout" or "stderr" *)
    _old : loc;         (* the stream [sys.<name>] named at construction *)
    tmp_io : loc }.     (* the private [StringIO] *)

Record IOManager : Type :=
  { _out : StdCapture;
    _err : StdCapture }.

Inductive obj : Type :=
| Console (delivered : string)           (* a host stream: text delivered so far *)
| Buffer (b : StringIO.t)                (* an [io.StringIO] *)
| Dict (items : gmap string pyval)       (* a [dict] with [str] keys *)
| Facade (_capture : option IOManager).  (* an [IOCapture] instance *)

Record world : Type :=
  World { sys : gmap string loc;         (* attributes of module [sys] *)
          heap : gmap loc obj }.

(** ** The state-and-exception monad *)

Definition M (A : Type) : Type := world -> result A * world.

Definition ret {A} (a : A) : M A := fun w => (Ok a, w).

Definition raise {A} (e : exn) : M A := fun w => (Raise e, w).

Definition bind {A B} (m : M A) (k : A -> M B) : M B :=
  fun w =>
    match m w with
    | (Ok a, w') => k a w'
    | (Raise e, w') => (Raise e, w')
    end.

Notation "'let*' x ':=' m 'in' k" := (bind m (fun x => k))
  (at level 10, x name, m at level 100, k at level 200, only parsing).
Notation "'do' m 'in' k" := (bind m (fun _ => k))
  (at level 10, m at level 100, k at level 200, only parsing).

(** [try: body finally: fin].  [fin] always runs; an exception raised by
    [fin] replaces the outcome of [body]. *)
Definition try_finally {A} (body : M A) (fin : M unit) : M A :=
  fun w =>
    match body w with
    | (r, w1) =>
        match fin w1 with
        | (Ok _, w2) => (r, w2)
        | (Raise e, w2) => (Raise e, w2)
        end
    end.

(** [x is None] *)
Definition is_None {A} (x : option A) : bool :=
  match x with
  | None => true
  | Some _ => false
  end.

(** [assert c] *)
Definition assert (c : bool) : M unit :=
  if c then ret tt else raise AssertionError.

(** ** Primitive operations on the world *)

(** [getattr(sys, nm)] *)
Definition getattr_sys (nm : string) : M loc :=
  fun w =>
    match sys w !! nm with
    | Some l => (Ok l, w)
    | None => (Raise AttributeError, w)
    end.

(** [setattr(sys, nm, l)] *)
Definition setattr_sys (nm : string) (l : loc) : M unit :=
  fun w => (Ok tt, World (<[nm := l]> (sys w)) (heap w)).

(** Allocation of a new object at a location not in use. *)
Definition alloc (o : obj) : M loc :=
  fun w =>
    let l := fresh (dom (heap w)) in
    (Ok l, World (sys w) (<[l := o]> (heap w))).

(** A [StringIO] method applied to the object at [l]. *)
Definition on_buffer {A} (l : loc) (f : StringIO.t -> result A * StringIO.t) : M A :=
  fun w =>
    match heap w !! l with
    | Some (Buffer b) =>
        let '(r, b') := f b in
        (r, World (sys w) (<[l := Buffer b']> (heap w)))
    | _ => (Raise AttributeError, w)
    end.

(** [l.write(s)] for any stream [l]: a host stream takes delivery of the
    text, a [StringIO] stores it. *)
Definition stream_write (l : loc) (s : string) : M nat :=
  fun w =>
    match heap w !! l with
    | Some (Console d) =>
        (Ok (String.length s), World (sys w) (<[l := Console (d +:+ s)]> (heap w)))
    | Some (Buffer b) =>
        let '(r, b') := StringIO.write s b in
        (r, World (sys w) (<[l := Buffer b']> (heap w)))
    | _ => (Raise AttributeError, w)
    end.

(** [d[k] = v] *)
Definition setitem (d : loc) (k : string) (v : pyval) : M unit :=
  fun w =>
    match heap w !! d with
    | Some (Dict items) =>
        (Ok tt, World (sys w) (<[d := Dict (<[k := v]> items)]> (heap w)))
    | _ => (Raise TypeError, w)
    end.

(** ** [sys_io_name = {0: "stdin", 1: "stdout", 2: "stderr"}] *)

Definition sys_io_name : gmap Z string :=
  <[0 := "stdin"]> (<[1 := "stdout"]> (<[2 := "stderr"]> ∅)).

(** ** class StdCapture *)

(** [__init__(self, fd)] *)
Definition StdCapture_init (fd : Z) : M StdCapture :=
  do assert (bool_decide (fd = 1 ∨ fd = 2)) in
  let* nm := (match sys_io_name !! fd with
              | Some nm => ret nm
              | None => raise KeyError
              end) in
  let* old := getattr_sys nm in
  let* t := alloc (Buffer StringIO.new) in
  ret {| name := nm; _old := old; tmp_io := t |}.

Definition StdCapture_start (self : StdCapture) : M unit :=
  setattr_sys (name self) (tmp_io self).

Definition StdCapture_finish (self : StdCapture) : M unit :=
  do setattr_sys (name self) (_old self) in
  on_buffer (tmp_io self) StringIO.close.

Definition StdCapture_suspend (self : StdCapture) : M unit :=
  setattr_sys (name self) (_old self).

Definition StdCapture_resume (self : StdCapture) : M unit :=
  setattr_sys (name self) (tmp_io self).

Definition StdCapture_snap (self : StdCapture) : M string :=
  do on_buffer (tmp_io self) (StringIO.seek 0) in
  let* res := on_buffer (tmp_io self) StringIO.read in
  do on_buffer (tmp_io self) (StringIO.seek 0) in
  do on_buffer (tmp_io self) StringIO.truncate in
  ret res.

(** ** class IOManager *)

Definition IOManager_start (self : IOManager) : M unit :=
  do StdCapture_start (_out self) in
  StdCapture_start (_err self).

Definition IOManager_finish (self : IOManager) : M unit :=
  do StdCapture_finish (_out self) in
  StdCapture_finish (_err self).

Definition IOManager_suspend (self : IOManager) : M unit :=
  do StdCapture_suspend (_out self) in
  StdCapture_suspend (_err self).

Definition IOManager_resume (self : IOManager) : M unit :=
  do StdCapture_resume (_out self) in
  StdCapture_resume (_err self).

Definition IOManager_read (self : IOManager) : M (string * string) :=
  let* out := StdCapture_snap (_out self) in
  let* err := StdCapture_snap (_err self) in
  ret (out, err).

(** ** class IOCapture

    An instance lives in the heap (its [_capture] attribute is mutable);
    [self] is its location. *)

(** [self._capture] *)
Definition get_capture (self : loc) : M (option IOManager) :=
  fun w =>
    match heap w !! self with
    | Some (Facade c) => (Ok c, w)
    | _ => (Raise AttributeError, w)
    end.

(** [self._capture = c] *)
Definition set_capture (self : loc) (c : option IOManager) : M unit :=
  fun w =>
    match heap w !! self with
    | Some (Facade _) => (Ok tt, World (sys w) (<[self := Facade c]> (heap w)))
    | _ => (Raise AttributeError, w)
    end.

(** [IOCapture()] *)
Definition IOCapture_init : M loc := alloc (Facade None).

Definition start_capturing (self : loc) : M unit :=
  let* c := get_capture self in
  do assert (is_None c) in
  let* out := StdCapture_init 1 in
  let* err := StdCapture_init 2 in
  do set_capture self (Some {| _out := out; _err := err |}) in
  let* c' := get_capture self in
  match c' with
  | Some m => IOManager_start m
  | None => raise AttributeError
  end.

Definition stop_capturing (self : loc) : M unit :=
  let* c := get_capture self in
  match c with
  | Some m =>
      do IOManager_finish m in
      set_capture self None
  | None => ret tt
  end.

Definition resume_capture (self : loc) : M unit :=
  let* c := get_capture self in
  match c with
  | Some m => IOManager_resume m
  | None => ret tt
  end.

Definition read_capture (self : loc) : M (string * string) :=
  let* c := get_capture self in
  do assert (negb (is_None c)) in
  let* c' := get_capture self in
  match c' with
  | Some m => IOManager_read m
  | None => raise AttributeError
  end.

(** No guard: on [None] the method lookup [None.suspend] fails. *)
Definition suspend_capture (self : loc) : M unit :=
  let* c := get_capture self in
  match c with
  | Some m => IOManager_suspend m
  | None => raise AttributeError
  end.

(** [with self.capture(out_buf): body].

    [contextlib.contextmanager] runs the generator up to its [yield] on
    entry, and resumes it at the [yield] on exit: normally when [body]
    returned, by throwing the exception of [body] into it otherwise.  The
    [finally] clause therefore runs on both paths, and the three
    statements after the [try] only on the normal one. *)
Definition capture (self : loc) (out_buf : loc) (body : M unit) : M unit :=
  do resume_capture self in
  do try_finally body (suspend_capture self) in
  let* r := read_capture self in
  do setitem out_buf "out" (VStr (fst r)) in
  setitem out_buf "err" (VStr (snd r)).

(** ** Units of work and scripts of calls *)

(** [sys.<nm>.write(s)], as [print] does it. *)
Definition sys_write (nm : string) (s : string) : M unit :=
  let* l := getattr_sys nm in
  do stream_write l s in
  ret tt.

(** One write of a unit of work, on the output or on the error channel. *)
Inductive write_cmd : Type :=
| to_stdout (s : string)
| to_stderr (s : string).

Definition run_write (c : write_cmd) : M unit :=
  match c with
  | to_stdout s => sys_write "stdout" s
  | to_stderr s => sys_write "stderr" s
  end.

Fixpoint run_writes (ws : list write_cmd) : M unit :=
  match ws with
  | [] => ret tt
  | c :: ws' => do run_write c in run_writes ws'
  end.

(** The concatenation of the texts written to each channel. *)
Fixpoint out_text (ws : list write_cmd) : string :=
  match ws with
  | [] => ""
  | to_stdout s :: ws' => s +:+ out_text ws'
  | to_stderr _ :: ws' => out_text ws'
  end.

Fixpoint err_text (ws : list write_cmd) : string :=
  match ws with
  | [] => ""
  | to_stdout _ :: ws' => err_text ws'
  | to_stderr s :: ws' => s +:+ err_text ws'
  end.

(** A unit of work that writes and then fails. *)
Definition writes_then_fail (ws : list write_cmd) (tag : nat) : M unit :=
  do run_writes ws in
  raise (Failure tag).

(** Sequences of [suspend_capture] / [resume_capture] calls. *)
Inductive toggle : Type := Suspend | Resume.

Definition run_toggle (self : loc) (t : toggle) : M unit :=
  match t with
  | Suspend => suspend_capture self
  | Resume => resume_capture self
  end.

Fixpoint run_toggles (self : loc) (ts : list toggle) : M unit :=
  match ts with
  | [] => ret tt
  | t :: ts' => do run_toggle self t in run_toggles self ts'
  end.

(** What a caller can do with a facade, one call at a time.  A scope is a
    [with] block around writes, optionally ending in a failure. *)
Inductive call : Type :=
| CStart
| CStop
| CResume
| CSuspend
| CRead
| CWrite (c : write_cmd)
| CScope (out_buf : loc) (ws : list write_cmd) (fail : option nat).

(** What the caller observes of one call: [read_capture]'s pair, or
    nothing, or the exception. *)
Definition run_call (self : loc) (c : call) : M (option (string * string)) :=
  match c with
  | CStart => do start_capturing self in ret None
  | CStop => do stop_capturing self in ret None
  | CResume => do resume_capture self in ret None
  | CSuspend => do suspend_capture self in ret None
  | CRead => let* r := read_capture self in ret (Some r)
  | CWrite c => do run_write c in ret None
  | CScope out_buf ws None => do capture self out_buf (run_writes ws) in ret None
  | CScope out_buf ws (Some tag) =>
      do capture self out_buf (writes_then_fail ws tag) in ret None
  end.

(** A caller that goes on after an exception (it catches it): the
    observations of all calls, in order. *)
Fixpoint run_calls (self : loc) (cs : list call) (w : world)
  : list (result (option (string * string))) * world :=
  match cs with
  | [] => ([], w)
  | c :: cs' =>
      let '(r, w1) := run_call self c w in
      let '(rs, w2) := run_calls self cs' w1 in
      (r :: rs, w2)
  end.

(** ** Session states *)

(** The state of a session whose two buffers are open, hold [vo] and [ve]
    and stand at their end: what [start_capturing] sets up and every call
    and channel write maintains. *)
Record session (w : world) (self : loc) (m : IOManager) (vo ve : string) : Prop :=
  { ses_facade : heap w !! self = Some (Facade (Some m));
    ses_name_out : name (_out m) = "stdout";
    ses_name_err : name (_err m) = "stderr";
    ses_out : heap w !! tmp_io (_out m)
              = Some (Buffer (StringIO.mk vo (String.length vo) false));
    ses_err : heap w !! tmp_io (_err m)
              = Some (Buffer (StringIO.mk ve (String.length ve) false));
    ses_sep : tmp_io (_out m) ≠ tmp_io (_err m) }.

(** Capture is on: both channels name their buffer. *)
Definition buffered (w : world) (m : IOManager) : Prop :=
  sys w !! name (_out m) = Some (tmp_io (_out m)) ∧
  sys w !! name (_err m) = Some (tmp_io (_err m)).

(** Capture is suspended: both channels name the stream found at
    construction. *)
Definition suspended (w : world) (m : IOManager) : Prop :=
  sys w !! name (_out m) = Some (_old (_out m)) ∧
  sys w !! name (_err m) = Some (_old (_err m)).

(** The world after [m.resume()] and after [m.suspend()]: the channel of
    [_out m] is set first, that of [_err m] second. *)
Definition resumed (m : IOManager) (w : world) : world :=
  World (<[name (_err m) := tmp_io (_err m)]>
           (<[name (_out m) := tmp_io (_out m)]> (sys w)))
        (heap w).

Definition halted (m : IOManager) (w : world) : world :=
  World (<[name (_err m) := _old (_err m)]>
           (<[name (_out m) := _old (_out m)]> (sys w)))
        (heap w).

(** Something else reassigns the channel [nm] to the stream [l]. *)
Definition reassigned (nm : string) (l : loc) (w : world) : world :=
  World (<[nm := l]> (sys w)) (heap w).

(** The world after a drain of both buffers of [m]: each is as new. *)
Definition drained (m : IOManager) (w : world) : world :=
  World (sys w)
        (<[tmp_io (_err m) := Buffer StringIO.new]>
           (<[tmp_io (_out m) := Buffer StringIO.new]> (heap w))).

(** The sink of a scope around the writes [ws], entered in the world [w],
    holds exactly the text written to each channel inside the scope. *)
Definition scope_sink_exact
    (self out_buf : loc) (ws : list write_cmd) (w : world) : Prop :=
  exists (w' : world) (items : gmap string pyval),
    capture self out_buf (run_writes ws) w = (Ok tt, w') /\
    heap w' !! out_buf = Some (Dict items) /\
    items !! "out" = Some (VStr (out_text ws)) /\
    items !! "err" = Some (VStr (err_text ws)).

(** The text of a write, and the real stream of its channel in [m]. *)
Definition cmd_text (c : write_cmd) : string :=
  match c with
  | to_stdout s => s
  | to_stderr s => s
  end.

Definition cmd_target (m : IOManager) (c : write_cmd) : loc :=
  match c with
  | to_stdout _ => _old (_out m)
  | to_stderr _ => _old (_err m)
  end.

(** Two worlds that differ at most in the text host streams have taken
    delivery of: same [sys], and at every location the same object or two
    host streams. *)
Definition obj_sim (o1 o2 : option obj) : Prop :=
  o1 = o2 \/
  exists d1 d2 : string, o1 = Some (Console d1) /\ o2 = Some (Console d2).

Definition world_sim (w1 w2 : world) : Prop :=
  sys w1 = sys w2 /\ forall l : loc, obj_sim (heap w1 !! l) (heap w2 !! l).

(** A computation whose outcome does not depend on what was delivered to
    host streams, and which maps similar worlds to similar worlds. *)
Definition console_blind {A} (c : M A) : Prop :=
  forall w1 w2 : world,
    world_sim w1 w2 ->
    fst (c w1) = fst (c w2) /\ world_sim (snd (c w1)) (snd (c w2)).

(** A computation that leaves the dictionary at [d] as it is. *)
Definition keeps_sink {A} (d : loc) (c : M A) : Prop :=
  forall (w : world) (items : gmap string pyval),
    heap w !! d = Some (Dict items) ->
    heap (snd (c w)) !! d = Some (Dict items).

(** The session [start_capturing] sets up in the world [w], whose
    channels name [lo] and [le], and the world it leaves. *)
Definition first_buffer (w : world) : loc := fresh (dom (heap w)).

Definition second_buffer (w : world) : loc :=
  fresh (dom (<[first_buffer w := Buffer StringIO.new]> (heap w))).

Definition new_manager (w : world) (lo le : loc) : IOManager :=
  {| _out := {| name := "stdout"; _old := lo; tmp_io := first_buffer w |};
     _err := {| name := "stderr"; _old := le; tmp_io := second_buffer w |} |}.

Definition started (self : loc) (w : world) (lo le : loc) : world :=
  World (<["stderr" := second_buffer w]> (<["stdout" := first_buffer w]> (sys w)))
        (<[self := Facade (Some (new_manager w lo le))]>
           (<[second_buffer w := Buffer StringIO.new]>
              (<[first_buffer w := Buffer StringIO.new]> (heap w)))).

(** The world [stop_capturing] leaves: real streams back, buffers closed,
    no session. *)
Definition stopped (self : loc) (m : IOManager) (w : world) (vo ve : string)
  : world :=
  World (<[name (_err m) := _old (_err m)]>
           (<[name (_out m) := _old (_out m)]> (sys w)))
        (<[self := Facade None]>
           (<[tmp_io (_err m) := Buffer (StringIO.mk ve (String.length ve) true)]>
              (<[tmp_io (_out m) := Buffer (StringIO.mk vo (String.length vo) true)]>
                 (heap w)))).

(** ** Well-formed worlds

    What holds of the world between any two calls of a caller that starts
    from host streams and uses the facade and [print] only. *)

(** [l] is a host stream. *)
Definition host_stream (w : world) (l : loc) : Prop :=
  exists d : string, heap w !! l = Some (Console d).

(** The channel [nm] names a host stream. *)
Definition host_channel (w : world) (nm : string) : Prop :=
  exists l : loc, sys w !! nm = Some l /\ host_stream w l.

(** The session [m] is in order: buffers open and at their end, real
    targets host streams, capture either on or suspended. *)
Definition active (w : world) (self : loc) (m : IOManager) : Prop :=
  (exists vo ve : string, session w self m vo ve) /\
  host_stream w (_old (_out m)) /\
  host_stream w (_old (_err m)) /\
  (buffered w m \/ suspended w m).

Definition well_formed (self : loc) (w : world) : Prop :=
  exists c : option IOManager,
    heap w !! self = Some (Facade c) /\
    match c with
    | None => host_channel w "stdout" /\ host_channel w "stderr"
    | Some m => active w self m
    end.

(** A computation that keeps the world well formed, however it ends. *)
Definition preserves {A} (self : loc) (c : M A) : Prop :=
  forall w : world, well_formed self w -> well_formed self (snd (c w)).

(** Two worlds that differ at most in what host streams and dictionaries
    hold. *)
Definition same_shape (w w' : world) : Prop :=
  sys w' = sys w /\
  forall l : loc,
    heap w' !! l = heap w !! l \/
    (exists d d' : string,
        heap w !! l = Some (Console d) /\ heap w' !! l = Some (Console d')) \/
    (exists x y : gmap string pyval,
        heap w !! l = Some (Dict x) /\ heap w' !! l = Some (Dict y)).

(** ** What calls leave alone *)

(** A sequence of calls without [stop_capturing]. *)
Fixpoint no_stop (cs : list call) : bool :=
  match cs with
  | [] => true
  | CStop :: _ => false
  | _ :: cs' => no_stop cs'
  end.

(** A computation that, in a well-formed world, assigns no attribute of
    [sys] other than the two channels. *)
Definition sys_framed {A} (self : loc) (c : M A) : Prop :=
  forall w : world,
    well_formed self w ->
    forall k : string,
      k ≠ "stdout" -> k ≠ "stderr" -> sys (snd (c w)) !! k = sys w !! k.

(** A computation that leaves the [_capture] attribute of the facade as
    it is. *)
Definition keeps_facade {A} (self : loc) (c : M A) : Prop :=
  forall (w : world) (f : option IOManager),
    heap w !! self = Some (Facade f) ->
    heap (snd (c w)) !! self = Some (Facade f).

(** ** The facade as a state machine

    What a caller can tell of the three classes, written down without
    streams: whether there is a session, whether its capture is on, the
    text it holds for each channel, and what each dictionary holds. *)

Record machine : Type :=
  Machine { session_of : option (bool * string * string);
            dicts_of : gmap loc (gmap string pyval) }.

Definition model_call (c : call) (a : machine)
  : result (option (string * string)) * machine :=
  match c, session_of a with
  | CStart, None => (Ok None, Machine (Some (true, "", "")) (dicts_of a))
  | CStart, Some _ => (Raise AssertionError, a)
  | CStop, _ => (Ok None, Machine None (dicts_of a))
  | CResume, None => (Ok None, a)
  | CResume, Some (_, vo, ve) =>
      (Ok None, Machine (Some (true, vo, ve)) (dicts_of a))
  | CSuspend, None => (Raise AttributeError, a)
  | CSuspend, Some (_, vo, ve) =>
      (Ok None, Machine (Some (false, vo, ve)) (dicts_of a))
  | CRead, None => (Raise AssertionError, a)
  | CRead, Some (on, vo, ve) =>
      (Ok (Some (vo, ve)), Machine (Some (on, "", "")) (dicts_of a))
  | CWrite _, None => (Ok None, a)
  | CWrite _, Some (false, _, _) => (Ok None, a)
  | CWrite c, Some (true, vo, ve) =>
      (Ok None,
       Machine (Some (true, vo +:+ out_text [c], ve +:+ err_text [c]))
               (dicts_of a))
  | CScope _ _ _, None => (Raise AttributeError, a)
  | CScope _ ws (Some tag), Some (_, vo, ve) =>
      (Raise (Failure tag),
       Machine (Some (false, vo +:+ out_text ws, ve +:+ err_text ws))
               (dicts_of a))
  | CScope d ws None, Some (_, vo, ve) =>
      match dicts_of a !! d with
      | Some items =>
          (Ok None,
           Machine (Some (false, "", ""))
                   (<[d := <["err" := VStr (ve +:+ err_text ws)]>
                             (<["out" := VStr (vo +:+ out_text ws)]> items)]>
                      (dicts_of a)))
      | None => (Raise TypeError, Machine (Some (false, "", "")) (dicts_of a))
      end
  end.

Fixpoint model_calls (cs : list call) (a : machine)
  : list (result (option (string * string))) * machine :=
  match cs with
  | [] => ([], a)
  | c :: cs' =>
      let '(r, a1) := model_call c a in
      let '(rs, a2) := model_calls cs' a1 in
      (r :: rs, a2)
  end.

(** The dictionary at [l], if there is one. *)
Definition hdict (h : gmap loc obj) (l : loc) : option (gmap string pyval) :=
  match h !! l with
  | Some (Dict items) => Some items
  | _ => None
  end.

Definition in_mode (on : bool) (w : world) (m : IOManager) : Prop :=
  if on then buffered w m else suspended w m.

(** The world [w] is in the state [a] of the machine. *)
Definition refines (self : loc) (a : machine) (w : world) : Prop :=
  (forall l : loc, dicts_of a !! l = hdict (heap w) l) /\
  match session_of a with
  | None =>
      heap w !! self = Some (Facade None) /\
      host_channel w "stdout" /\ host_channel w "stderr"
  | Some (on, vo, ve) =>
      exists m : IOManager,
        session w self m vo ve /\ in_mode on w m /\
        host_stream w (_old (_out m)) /\ host_stream w (_old (_err m))
  end.

(** Two worlds that differ at most in what streams hold. *)
Definition stream_shape (w w' : world) : Prop :=
  sys w' = sys w /\
  forall l : loc,
    heap w' !! l = heap w !! l \/
    (exists d d' : string,
        heap w !! l = Some (Console d) /\ heap w' !! l = Some (Console d')) \/
    (exists b b' : StringIO.t,
        heap w !! l = Some (Buffer b) /\ heap w' !! l = Some (Buffer b')).

(** The dictionaries of a world, for the machine. *)
Definition dict_items (o : obj) : option (gmap string pyval) :=
  match o with
  | Dict items => Some items
  | _ => None
  end.

Definition dicts_in (w : world) : gmap loc (gmap string pyval) :=
  omap dict_items (heap w).

(** ** A concrete process, for the examples

    Three host streams behind [sys.stdin], [sys.stdout] and [sys.stderr],
    one [IOCapture] instance, an empty [dict] and a [dict] already in use. *)

Definition host : world :=
  World (<["stdin" := 1%positive]>
           (<["stdout" := 2%positive]> (<["stderr" := 3%positive]> ∅)))
        (<[1%positive := Console ""]>
           (<[2%positive := Console ""]> (<[3%positive := Console ""]> ∅))).

Definition used_items : gmap string pyval :=
  <["kept" := VInt 1]> (<["out" := VStr "stale"]> ∅).

(** [io_capture = IOCapture(); result_dict = dict(); used_dict = {...}] *)
Definition setup : M (loc * loc * loc) :=
  let* self := IOCapture_init in
  let* d := alloc (Dict ∅) in
  let* u := alloc (Dict used_items) in
  ret (self, d, u).

Definition io_capture : loc := 4%positive.
Definition result_dict : loc := 5%positive.
Definition used_dict : loc := 6%positive.

(** No session yet. *)
Definition w_idle : world := snd (setup host).

(** After [io_capture.start_capturing()]. *)
Definition w_started : world := snd (start_capturing io_capture w_idle).

(** After [print]ing on both channels with capture on. *)
Definition w_printed : world :=
  snd (run_writes [to_stdout "hello"; to_stderr "oops"] w_started).

(** After [print("pre")] right after [start_capturing], before any scope. *)
Definition w_pre : world := snd (run_writes [to_stdout "pre"] w_started).

(** After [suspend_capture], with text in the buffers. *)
Definition w_suspended : world := snd (suspend_capture io_capture w_printed).

(** The two redirectors of that session. *)
Definition out0 : StdCapture :=
  {| name := "stdout"; _old := 2%positive; tmp_io := 7%positive |}.
Definition err0 : StdCapture :=
  {| name := "stderr"; _old := 3%positive; tmp_io := 8%positive |}.
Definition manager0 : IOManager := {| _out := out0; _err := err0 |}.

(** Two scenarios on that process.  [nl] is the newline [print] ends a
    line with. *)
Definition nl : string := String (ascii_of_nat 10) "".

(** One scope writing to both channels, then the session is stopped and
    something more is printed. *)
Definition scenario_one : M unit :=
  do start_capturing io_capture in
  do capture io_capture result_dict
       (run_writes [to_stdout ("hello" +:+ nl); to_stderr ("world" +:+ nl)]) in
  do stop_capturing io_capture in
  sys_write "stdout" "after".

(** Two scopes in a row, each with its own sink. *)
Definition scenario_two : M unit :=
  do start_capturing io_capture in
  do capture io_capture result_dict (run_writes [to_stdout "A"]) in
  capture io_capture used_dict (run_writes [to_stdout "B"]).

(** * Facts *)

(** ** Text *)

Section text.

(** [+:+] does not unfold under [simpl]; its two equations, by hand. *)
Lemma str_app_nil_l (t : string) : "" +:+ t = t.
Proof. reflexivity. Qed.

Lemma str_app_cons (c : ascii) (s t : string) :
  String c s +:+ t = String c (s +:+ t).
Proof. reflexivity. Qed.

Lemma str_app_nil_r (s : string) : s +:+ "" = s.
Proof.
  induction s as [|c s IH]; [reflexivity|].
  now rewrite str_app_cons, IH.
Qed.

Lemma str_app_assoc (s1 s2 s3 : string) :
  (s1 +:+ s2) +:+ s3 = s1 +:+ (s2 +:+ s3).
Proof.
  induction s1 as [|c s1 IH]; [reflexivity|].
  now rewrite !str_app_cons, IH.
Qed.

Lemma str_length_app (s1 s2 : string) :
  String.length (s1 +:+ s2) = (String.length s1 + String.length s2)%nat.
Proof.
  induction s1 as [|c s1 IH]; [reflexivity|].
  rewrite str_app_cons. simpl. now rewrite IH.
Qed.

Lemma str_take_all (s : string) : str_take (String.length s) s = s.
Proof. induction s as [|c s IH]; simpl; [reflexivity | now rewrite IH]. Qed.

Lemma str_drop_past (s : string) (n : nat) :
  (String.length s <= n)%nat -> str_drop n s = "".
Proof.
  revert n. induction s as [|c s IH]; intros n Hn.
  - now destruct n.
  - destruct n as [|n]; simpl in *; [lia | apply IH; lia].
Qed.

End text.

(** ** [StringIO] *)

Section stringio.

(** Writing at the end appends, and leaves the position at the end. *)
Lemma write_at_end (v s : string) :
  StringIO.write s (StringIO.mk v (String.length v) false)
  = (Ok (String.length s),
     StringIO.mk (v +:+ s) (String.length (v +:+ s)) false).
Proof.
  unfold StringIO.write. simpl.
  destruct s as [|c s]; [now rewrite str_app_nil_r|].
  cbn [String.length Nat.eqb].
  rewrite str_take_all, Nat.sub_diag, str_length_app. simpl.
  rewrite str_drop_past by lia.
  now rewrite str_app_nil_l, str_app_nil_r.
Qed.


(** Elsewhere it overwrites, and pads when the position is past the end. *)
Example write_overwrites :
  StringIO.write "XY" (StringIO.mk "abcd" 1 false)
  = (Ok 2%nat, StringIO.mk "aXYd" 3 false).
Proof. reflexivity. Qed.

Example write_pads :
  StringIO.write "X" (StringIO.mk "a" 3 false)
  = (Ok 1%nat, StringIO.mk ("a" +:+ str_nul 2 +:+ "X") 4 false).
Proof. reflexivity. Qed.

Example write_closed :
  StringIO.write "X" (StringIO.mk "a" 1 true)
  = (Raise ValueError, StringIO.mk "a" 1 true).
Proof. reflexivity. Qed.

(** [snap] on an open buffer, wherever its position stands: the whole text
    comes back and the buffer is left as a new one. *)
Lemma snap_spec (c : StdCapture) (w : world) (v : string) (p : nat) :
  heap w !! tmp_io c = Some (Buffer (StringIO.mk v p false)) ->
  StdCapture_snap c w
  = (Ok v, World (sys w) (<[tmp_io c := Buffer StringIO.new]> (heap w))).
Proof.
  intros Hb. unfold StdCapture_snap, bind, on_buffer, ret.
  rewrite Hb. simpl.
  repeat (rewrite lookup_insert_eq; simpl).
  rewrite !insert_insert_eq. reflexivity.
Qed.

End stringio.

(** ** The facade's guards *)

Section guards.

Variables (self : loc) (w : world).

Lemma start_capturing_active (m : IOManager) :
  heap w !! self = Some (Facade (Some m)) ->
  start_capturing self w = (Raise AssertionError, w).
Proof.
  intros Hf. unfold start_capturing, bind, get_capture. now rewrite Hf.
Qed.

Lemma read_capture_idle :
  heap w !! self = Some (Facade None) ->
  read_capture self w = (Raise AssertionError, w).
Proof.
  intros Hf. unfold read_capture, bind, get_capture. now rewrite Hf.
Qed.

Lemma resume_capture_idle :
  heap w !! self = Some (Facade None) ->
  resume_capture self w = (Ok tt, w).
Proof.
  intros Hf. unfold resume_capture, bind, get_capture. now rewrite Hf.
Qed.

Lemma suspend_capture_idle :
  heap w !! self = Some (Facade None) ->
  suspend_capture self w = (Raise AttributeError, w).
Proof.
  intros Hf. unfold suspend_capture, bind, get_capture. now rewrite Hf.
Qed.

End guards.

(** ** Reading *)

Section reading.

Variables (self : loc) (m : IOManager) (w : world).
Variables (vo ve : string) (po pe : nat).

Hypothesis Hout :
  heap w !! tmp_io (_out m) = Some (Buffer (StringIO.mk vo po false)).
Hypothesis Herr :
  heap w !! tmp_io (_err m) = Some (Buffer (StringIO.mk ve pe false)).
Hypothesis Hsep : tmp_io (_out m) ≠ tmp_io (_err m).

Lemma IOManager_read_spec :
  IOManager_read m w = (Ok (vo, ve), drained m w).
Proof.
  unfold IOManager_read, bind.
  rewrite (snap_spec _ _ _ _ Hout).
  erewrite snap_spec; [reflexivity|].
  simpl. rewrite lookup_insert_ne by exact Hsep. exact Herr.
Qed.

Lemma read_capture_spec :
  heap w !! self = Some (Facade (Some m)) ->
  read_capture self w = (Ok (vo, ve), drained m w).
Proof.
  intros Hf. unfold read_capture, bind, get_capture.
  rewrite Hf. simpl. rewrite Hf. apply IOManager_read_spec.
Qed.

(** A drained world has both buffers as new, and the facade where it was. *)
Lemma drained_out : heap (drained m w) !! tmp_io (_out m) = Some (Buffer StringIO.new).
Proof.
  simpl. rewrite lookup_insert_ne by (intros E; apply Hsep; now rewrite E).
  apply lookup_insert_eq.
Qed.

Lemma drained_err : heap (drained m w) !! tmp_io (_err m) = Some (Buffer StringIO.new).
Proof. simpl. apply lookup_insert_eq. Qed.

Lemma drained_other (l : loc) :
  l ≠ tmp_io (_out m) -> l ≠ tmp_io (_err m) ->
  heap (drained m w) !! l = heap w !! l.
Proof.
  intros H1 H2. simpl.
  rewrite lookup_insert_ne by (intros E; now apply H2).
  now rewrite lookup_insert_ne by (intros E; now apply H1).
Qed.

Lemma drained_facade (c : option IOManager) :
  heap w !! self = Some (Facade c) ->
  heap (drained m w) !! self = Some (Facade c).
Proof.
  intros Hf. rewrite drained_other; [exact Hf | |]; intros E; congruence.
Qed.

Lemma drained_twice : drained m (drained m w) = drained m w.
Proof.
  unfold drained. simpl. f_equal.
  apply map_eq. intros l.
  destruct (decide (l = tmp_io (_err m))) as [->|H2];
    [|destruct (decide (l = tmp_io (_out m))) as [->|H1]];
    now simplify_map_eq.
Qed.

End reading.

(** ** Suspending and resuming *)

Section toggling.

Variables (self : loc) (m : IOManager).

Lemma resume_capture_spec (w : world) :
  heap w !! self = Some (Facade (Some m)) ->
  resume_capture self w = (Ok tt, resumed m w).
Proof.
  intros Hf. unfold resume_capture, bind, get_capture. now rewrite Hf.
Qed.

Lemma suspend_capture_spec (w : world) :
  heap w !! self = Some (Facade (Some m)) ->
  suspend_capture self w = (Ok tt, halted m w).
Proof.
  intros Hf. unfold suspend_capture, bind, get_capture. now rewrite Hf.
Qed.

(** The world after one toggle. *)
Lemma run_toggle_spec (t : toggle) (w : world) :
  heap w !! self = Some (Facade (Some m)) ->
  run_toggle self t w
  = (Ok tt, match t with Suspend => halted m w | Resume => resumed m w end).
Proof.
  intros Hf. destruct t; simpl.
  - now apply suspend_capture_spec.
  - now apply resume_capture_spec.
Qed.

(** A toggle overwrites what the previous one did to [sys]. *)
Lemma toggle_absorbs (t t' : toggle) (w : world) :
  heap w !! self = Some (Facade (Some m)) ->
  run_toggle self t (snd (run_toggle self t' w)) = run_toggle self t w.
Proof.
  intros Hf.
  rewrite (run_toggle_spec t' w Hf). simpl.
  rewrite !run_toggle_spec by (destruct t'; exact Hf).
  f_equal.
  destruct t, t'; unfold halted, resumed; simpl; f_equal;
    apply map_eq; intros k;
    destruct (decide (k = name (_err m))) as [->|H2];
    try destruct (decide (k = name (_out m))) as [->|H1];
    now simplify_map_eq.
Qed.

Lemma run_toggles_heap (ts : list toggle) (w : world) :
  heap w !! self = Some (Facade (Some m)) ->
  fst (run_toggles self ts w) = Ok tt /\
  heap (snd (run_toggles self ts w)) = heap w.
Proof.
  revert w. induction ts as [|t ts IH]; intros w Hf; simpl.
  - now split.
  - unfold bind. rewrite (run_toggle_spec t w Hf).
    destruct (IH (match t with Suspend => halted m w | Resume => resumed m w end))
      as [IH1 IH2]; [destruct t; exact Hf|].
    split; [exact IH1|]. rewrite IH2. now destruct t.
Qed.

Lemma run_toggles_last (ts : list toggle) (t : toggle) (w : world) :
  heap w !! self = Some (Facade (Some m)) ->
  run_toggles self (ts ++ [t]) w = run_toggle self t w.
Proof.
  revert w. induction ts as [|t' ts IH]; intros w Hf; simpl.
  - unfold bind. now rewrite (run_toggle_spec t w Hf).
  - unfold bind at 1. rewrite (run_toggle_spec t' w Hf).
    rewrite IH by (destruct t'; exact Hf).
    pose proof (toggle_absorbs t t' w Hf) as Ha.
    rewrite (run_toggle_spec t' w Hf) in Ha. exact Ha.
Qed.

End toggling.

(** ** What leaves a dictionary alone

    Every method of the three classes except the two [setitem] of
    [capture] writes to streams, to [sys] or to the facade only. *)

Create HintDb keeps.

Section frame.

Variable d : loc.

Lemma keeps_ret {A} (a : A) : keeps_sink d (ret a).
Proof. intros w items Hd. exact Hd. Qed.

Lemma keeps_raise {A} (e : exn) : keeps_sink d (@raise A e).
Proof. intros w items Hd. exact Hd. Qed.

Lemma keeps_bind {A B} (c : M A) (k : A -> M B) :
  keeps_sink d c -> (forall a, keeps_sink d (k a)) -> keeps_sink d (bind c k).
Proof.
  intros Hc Hk w items Hd. unfold bind.
  specialize (Hc w items Hd).
  destruct (c w) as [[a|e] w1]; simpl in *; [now apply Hk | exact Hc].
Qed.

Lemma keeps_try_finally {A} (body : M A) (fin : M unit) :
  keeps_sink d body -> keeps_sink d fin -> keeps_sink d (try_finally body fin).
Proof.
  intros Hb Hf w items Hd. unfold try_finally.
  specialize (Hb w items Hd).
  destruct (body w) as [r w1]; simpl in *.
  specialize (Hf w1 items Hb).
  destruct (fin w1) as [[u|e] w2]; exact Hf.
Qed.

Lemma keeps_assert (c : bool) : keeps_sink d (assert c).
Proof. destruct c; intros w items Hd; exact Hd. Qed.

Lemma keeps_getattr_sys (nm : string) : keeps_sink d (getattr_sys nm).
Proof.
  intros w items Hd. unfold getattr_sys. now destruct (sys w !! nm).
Qed.

Lemma keeps_setattr_sys (nm : string) (l : loc) : keeps_sink d (setattr_sys nm l).
Proof. intros w items Hd. exact Hd. Qed.

Lemma keeps_get_capture (self : loc) : keeps_sink d (get_capture self).
Proof.
  intros w items Hd. unfold get_capture.
  now destruct (heap w !! self) as [[?|?|?|?]|].
Qed.

Lemma keeps_on_buffer {A} (l : loc) (f : StringIO.t -> result A * StringIO.t) :
  keeps_sink d (on_buffer l f).
Proof.
  intros w items Hd. unfold on_buffer.
  destruct (heap w !! l) as [[?|b|?|?]|] eqn:Hl; try exact Hd.
  destruct (f b) as [r b']. simpl.
  rewrite lookup_insert_ne by congruence. exact Hd.
Qed.

Lemma keeps_stream_write (l : loc) (s : string) : keeps_sink d (stream_write l s).
Proof.
  intros w items Hd. unfold stream_write.
  destruct (heap w !! l) as [[?|b|?|?]|] eqn:Hl; try exact Hd.
  - simpl. rewrite lookup_insert_ne by congruence. exact Hd.
  - destruct (StringIO.write s b) as [r b']. simpl.
    rewrite lookup_insert_ne by congruence. exact Hd.
Qed.

Hint Resolve keeps_ret keeps_raise keeps_assert keeps_getattr_sys
  keeps_setattr_sys keeps_get_capture keeps_on_buffer keeps_stream_write
  keeps_try_finally : keeps.

(** Walk down a chain of binds. *)
Ltac keeps :=
  repeat (apply keeps_bind; [|intros]); auto with keeps.

Lemma keeps_snap (c : StdCapture) : keeps_sink d (StdCapture_snap c).
Proof. unfold StdCapture_snap. keeps. Qed.

Lemma keeps_resume_capture (self : loc) : keeps_sink d (resume_capture self).
Proof.
  unfold resume_capture. keeps.
  destruct a; [|auto with keeps].
  unfold IOManager_resume, StdCapture_resume. keeps.
Qed.

Lemma keeps_suspend_capture (self : loc) : keeps_sink d (suspend_capture self).
Proof.
  unfold suspend_capture. keeps.
  destruct a; [|auto with keeps].
  unfold IOManager_suspend, StdCapture_suspend. keeps.
Qed.

Lemma keeps_read_capture (self : loc) : keeps_sink d (read_capture self).
Proof.
  unfold read_capture. keeps.
  destruct a1; [|auto with keeps].
  unfold IOManager_read. keeps; apply keeps_snap.
Qed.

Lemma keeps_run_write (c : write_cmd) : keeps_sink d (run_write c).
Proof. destruct c; unfold run_write, sys_write; keeps. Qed.

Lemma keeps_run_writes (ws : list write_cmd) : keeps_sink d (run_writes ws).
Proof.
  induction ws as [|c ws IH]; simpl; [apply keeps_ret|].
  apply keeps_bind; [apply keeps_run_write | intros _; exact IH].
Qed.

Lemma keeps_writes_then_fail (ws : list write_cmd) (tag : nat) :
  keeps_sink d (writes_then_fail ws tag).
Proof.
  unfold writes_then_fail.
  apply keeps_bind; [apply keeps_run_writes | intros _; apply keeps_raise].
Qed.

End frame.

(** ** Writing with capture on *)

Section writing.

Variables (self : loc) (m : IOManager).

(** A write on a channel that names an open buffer standing at its end. *)
Lemma sys_write_buffer (nm : string) (l : loc) (v s : string) (w : world) :
  sys w !! nm = Some l ->
  heap w !! l = Some (Buffer (StringIO.mk v (String.length v) false)) ->
  sys_write nm s w
  = (Ok tt,
     World (sys w)
           (<[l := Buffer (StringIO.mk (v +:+ s) (String.length (v +:+ s)) false)]>
              (heap w))).
Proof.
  intros Hs Hb. unfold sys_write, bind, getattr_sys, stream_write.
  rewrite Hs, Hb, write_at_end. reflexivity.
Qed.

(** A session is a matter of the heap only. *)
Lemma session_heap (w w' : world) (vo ve : string) :
  heap w' = heap w -> session w self m vo ve -> session w' self m vo ve.
Proof.
  intros Hh [Hf Hno Hne Ho He Hsep].
  constructor; rewrite ?Hh; assumption.
Qed.

Lemma session_buffered_resumed (w : world) (vo ve : string) :
  session w self m vo ve -> buffered (resumed m w) m.
Proof.
  intros [Hf Hno Hne Ho He Hsep]. split; simpl.
  - rewrite lookup_insert_ne by (rewrite Hno, Hne; discriminate).
    apply lookup_insert_eq.
  - apply lookup_insert_eq.
Qed.

Lemma session_suspended_halted (w : world) (vo ve : string) :
  session w self m vo ve -> suspended (halted m w) m.
Proof.
  intros [Hf Hno Hne Ho He Hsep]. split; simpl.
  - rewrite lookup_insert_ne by (rewrite Hno, Hne; discriminate).
    apply lookup_insert_eq.
  - apply lookup_insert_eq.
Qed.

(** With capture on, a unit of work made of writes succeeds and appends
    to each buffer what it wrote to the channel of that buffer. *)
Lemma run_writes_buffered (ws : list write_cmd) :
  forall (w : world) (vo ve : string),
    session w self m vo ve ->
    buffered w m ->
    exists w1 : world,
      run_writes ws w = (Ok tt, w1) /\
      sys w1 = sys w /\
      session w1 self m (vo +:+ out_text ws) (ve +:+ err_text ws).
Proof.
  induction ws as [|c ws IH]; intros w vo ve Hs Hb.
  - exists w. simpl. rewrite !str_app_nil_r.
    split; [reflexivity | split; [reflexivity | exact Hs]].
  - pose proof Hs as [Hf Hno Hne Ho He Hsep].
    destruct Hb as [Hbo Hbe]. rewrite Hno in Hbo. rewrite Hne in Hbe.
    destruct c as [s|s]; simpl; unfold bind.
    + rewrite (sys_write_buffer "stdout" _ vo s w Hbo Ho).
      edestruct (IH (World (sys w)
                       (<[tmp_io (_out m) :=
                            Buffer (StringIO.mk (vo +:+ s)
                                      (String.length (vo +:+ s)) false)]>
                          (heap w)))
                    (vo +:+ s) ve) as [w1 [Hrun [Hsys Hs1]]].
      * constructor; simpl; try assumption.
        -- rewrite lookup_insert_ne by congruence. exact Hf.
        -- apply lookup_insert_eq.
        -- rewrite lookup_insert_ne by exact Hsep. exact He.
      * split; simpl; [now rewrite Hno | now rewrite Hne].
      * exists w1. rewrite <- str_app_assoc.
        split; [exact Hrun | split; [exact Hsys | exact Hs1]].
    + rewrite (sys_write_buffer "stderr" _ ve s w Hbe He).
      edestruct (IH (World (sys w)
                       (<[tmp_io (_err m) :=
                            Buffer (StringIO.mk (ve +:+ s)
                                      (String.length (ve +:+ s)) false)]>
                          (heap w)))
                    vo (ve +:+ s)) as [w1 [Hrun [Hsys Hs1]]].
      * constructor; simpl; try assumption.
        -- rewrite lookup_insert_ne by congruence. exact Hf.
        -- rewrite lookup_insert_ne by congruence. exact Ho.
        -- apply lookup_insert_eq.
      * split; simpl; [now rewrite Hno | now rewrite Hne].
      * exists w1. rewrite <- str_app_assoc.
        split; [exact Hrun | split; [exact Hsys | exact Hs1]].
Qed.

End writing.

(** ** Host streams are write-only

    No method reads back what a host stream was given, so later outcomes
    cannot depend on it. *)

Section blind.

Lemma obj_sim_refl (o : option obj) : obj_sim o o.
Proof. now left. Qed.

Lemma world_sim_refl (w : world) : world_sim w w.
Proof. split; [reflexivity | intros l; apply obj_sim_refl]. Qed.

Lemma world_sim_dom (w1 w2 : world) :
  world_sim w1 w2 -> dom (heap w1) = dom (heap w2).
Proof.
  intros [_ Hh]. apply set_eq. intros l. rewrite !elem_of_dom.
  destruct (Hh l) as [->|[d1 [d2 [-> ->]]]]; [reflexivity|].
  split; intros _; eexists; reflexivity.
Qed.

(** Storing similar objects at the same place keeps worlds similar. *)
Lemma world_sim_store (w1 w2 : world) (l : loc) (o1 o2 : obj) :
  world_sim w1 w2 ->
  obj_sim (Some o1) (Some o2) ->
  world_sim (World (sys w1) (<[l := o1]> (heap w1)))
            (World (sys w2) (<[l := o2]> (heap w2))).
Proof.
  intros [Hs Hh] Ho. split; [exact Hs|]. intros l'. simpl.
  destruct (decide (l = l')) as [->|Hne].
  - now rewrite !lookup_insert_eq.
  - rewrite !lookup_insert_ne by exact Hne. apply Hh.
Qed.

Lemma blind_ret {A} (a : A) : console_blind (ret a).
Proof. intros w1 w2 H. now split. Qed.

Lemma blind_raise {A} (e : exn) : console_blind (@raise A e).
Proof. intros w1 w2 H. now split. Qed.

Lemma blind_bind {A B} (c : M A) (k : A -> M B) :
  console_blind c -> (forall a, console_blind (k a)) -> console_blind (bind c k).
Proof.
  intros Hc Hk w1 w2 H. unfold bind.
  destruct (Hc w1 w2 H) as [Hr Hw].
  destruct (c w1) as [[a1|e1] w1'], (c w2) as [[a2|e2] w2'];
    simpl in *; try discriminate Hr.
  - injection Hr as ->. now apply Hk.
  - injection Hr as ->. split; [reflexivity | exact Hw].
Qed.

Lemma blind_try_finally {A} (body : M A) (fin : M unit) :
  console_blind body -> console_blind fin -> console_blind (try_finally body fin).
Proof.
  intros Hb Hf w1 w2 H. unfold try_finally.
  destruct (Hb w1 w2 H) as [Hr Hw].
  destruct (body w1) as [r1 w1'], (body w2) as [r2 w2']. simpl in *.
  destruct (Hf w1' w2' Hw) as [Hr' Hw'].
  destruct (fin w1') as [[u1|e1] w1''], (fin w2') as [[u2|e2] w2''];
    simpl in *; try discriminate Hr';
    (split; [first [assumption | injection Hr' as ->; reflexivity] | exact Hw']).
Qed.

Lemma blind_assert (c : bool) : console_blind (assert c).
Proof. destruct c; [apply blind_ret | apply blind_raise]. Qed.

Lemma blind_getattr_sys (nm : string) : console_blind (getattr_sys nm).
Proof.
  intros w1 w2 H. unfold getattr_sys. destruct H as [Hs Hh]. rewrite Hs.
  destruct (sys w2 !! nm); simpl; (split; [reflexivity | now split]).
Qed.

Lemma blind_setattr_sys (nm : string) (l : loc) : console_blind (setattr_sys nm l).
Proof.
  intros w1 w2 [Hs Hh]. split; [reflexivity|].
  split; simpl; [now rewrite Hs | exact Hh].
Qed.

Lemma blind_alloc (o : obj) : console_blind (alloc o).
Proof.
  intros w1 w2 H. unfold alloc. rewrite (world_sim_dom w1 w2 H). simpl.
  split; [reflexivity|]. apply world_sim_store; [exact H | apply obj_sim_refl].
Qed.

(** The case analysis shared by the operations on one object. *)
Ltac by_object H l :=
  let Hh := fresh "Hh" in
  let E1 := fresh "E" in
  let E2 := fresh "E" in
  pose proof (proj2 H l) as Hh;
  destruct Hh as [Hh|[? [? [E1 E2]]]];
  [rewrite Hh | rewrite E1, E2; simpl; now split].

Lemma blind_on_buffer {A} (l : loc) (f : StringIO.t -> result A * StringIO.t) :
  console_blind (on_buffer l f).
Proof.
  intros w1 w2 H. unfold on_buffer. by_object H l.
  destruct (heap w2 !! l) as [[?|b|?|?]|]; simpl; try now split.
  destruct (f b) as [r b']. simpl. split; [reflexivity|].
  apply world_sim_store; [exact H | apply obj_sim_refl].
Qed.

Lemma blind_stream_write (l : loc) (s : string) : console_blind (stream_write l s).
Proof.
  intros w1 w2 H. unfold stream_write.
  destruct (proj2 H l) as [Hh|[d1 [d2 [E1 E2]]]].
  - rewrite Hh.
    destruct (heap w2 !! l) as [[d|b|?|?]|]; simpl; try now split.
    + split; [reflexivity|].
      apply world_sim_store; [exact H | apply obj_sim_refl].
    + destruct (StringIO.write s b) as [r b']. simpl. split; [reflexivity|].
      apply world_sim_store; [exact H | apply obj_sim_refl].
  - rewrite E1, E2. simpl. split; [reflexivity|].
    apply world_sim_store; [exact H|]. right. now eexists _, _.
Qed.

Lemma blind_setitem (d : loc) (k : string) (v : pyval) : console_blind (setitem d k v).
Proof.
  intros w1 w2 H. unfold setitem. by_object H d.
  destruct (heap w2 !! d) as [[?|?|items|?]|]; simpl; try now split.
  split; [reflexivity|].
  apply world_sim_store; [exact H | apply obj_sim_refl].
Qed.

Lemma blind_get_capture (self : loc) : console_blind (get_capture self).
Proof.
  intros w1 w2 H. unfold get_capture. by_object H self.
  destruct (heap w2 !! self) as [[?|?|?|?]|]; simpl; now split.
Qed.

Lemma blind_set_capture (self : loc) (c : option IOManager) :
  console_blind (set_capture self c).
Proof.
  intros w1 w2 H. unfold set_capture. by_object H self.
  destruct (heap w2 !! self) as [[?|?|?|?]|]; simpl; try now split.
  split; [reflexivity|].
  apply world_sim_store; [exact H | apply obj_sim_refl].
Qed.

End blind.

Create HintDb blind.

Section blind_methods.

Hint Resolve blind_ret blind_raise blind_assert blind_getattr_sys
  blind_setattr_sys blind_alloc blind_on_buffer blind_stream_write
  blind_setitem blind_get_capture blind_set_capture blind_try_finally : blind.

(** Walk down binds and case distinctions to the primitives. *)
Ltac blind :=
  repeat first
    [ apply blind_bind; [|intros]
    | match goal with
      | |- console_blind (match ?x with _ => _ end) => destruct x
      end ];
  auto with blind.

Lemma blind_StdCapture_init (fd : Z) : console_blind (StdCapture_init fd).
Proof. unfold StdCapture_init. blind. Qed.

Lemma blind_snap (c : StdCapture) : console_blind (StdCapture_snap c).
Proof. unfold StdCapture_snap. blind. Qed.

Lemma blind_StdCapture_start (c : StdCapture) : console_blind (StdCapture_start c).
Proof. unfold StdCapture_start. blind. Qed.

Lemma blind_StdCapture_finish (c : StdCapture) : console_blind (StdCapture_finish c).
Proof. unfold StdCapture_finish. blind. Qed.

Lemma blind_StdCapture_suspend (c : StdCapture) : console_blind (StdCapture_suspend c).
Proof. unfold StdCapture_suspend. blind. Qed.

Lemma blind_StdCapture_resume (c : StdCapture) : console_blind (StdCapture_resume c).
Proof. unfold StdCapture_resume. blind. Qed.

Hint Resolve blind_StdCapture_init blind_snap blind_StdCapture_start
  blind_StdCapture_finish blind_StdCapture_suspend blind_StdCapture_resume
  : blind.

Lemma blind_IOManager_start (m : IOManager) : console_blind (IOManager_start m).
Proof. unfold IOManager_start. blind. Qed.

Lemma blind_IOManager_finish (m : IOManager) : console_blind (IOManager_finish m).
Proof. unfold IOManager_finish. blind. Qed.

Lemma blind_IOManager_suspend (m : IOManager) : console_blind (IOManager_suspend m).
Proof. unfold IOManager_suspend. blind. Qed.

Lemma blind_IOManager_resume (m : IOManager) : console_blind (IOManager_resume m).
Proof. unfold IOManager_resume. blind. Qed.

Lemma blind_IOManager_read (m : IOManager) : console_blind (IOManager_read m).
Proof. unfold IOManager_read. blind. Qed.

Hint Resolve blind_IOManager_start
  blind_IOManager_finish blind_IOManager_suspend blind_IOManager_resume
  blind_IOManager_read : blind.

Variable self : loc.

Lemma blind_start_capturing : console_blind (start_capturing self).
Proof. unfold start_capturing. blind. Qed.

Lemma blind_stop_capturing : console_blind (stop_capturing self).
Proof. unfold stop_capturing. blind. Qed.

Lemma blind_resume_capture : console_blind (resume_capture self).
Proof. unfold resume_capture. blind. Qed.

Lemma blind_read_capture : console_blind (read_capture self).
Proof. unfold read_capture. blind. Qed.

Lemma blind_suspend_capture : console_blind (suspend_capture self).
Proof. unfold suspend_capture. blind. Qed.

Hint Resolve blind_start_capturing blind_stop_capturing blind_resume_capture
  blind_read_capture blind_suspend_capture : blind.

Lemma blind_capture (out_buf : loc) (body : M unit) :
  console_blind body -> console_blind (capture self out_buf body).
Proof. intros Hb. unfold capture. blind. Qed.

Lemma blind_run_write (c : write_cmd) : console_blind (run_write c).
Proof. destruct c; unfold run_write, sys_write; blind. Qed.

Lemma blind_run_writes (ws : list write_cmd) : console_blind (run_writes ws).
Proof.
  induction ws as [|c ws IH]; simpl; [apply blind_ret|].
  apply blind_bind; [apply blind_run_write | intros _; exact IH].
Qed.

Lemma blind_writes_then_fail (ws : list write_cmd) (tag : nat) :
  console_blind (writes_then_fail ws tag).
Proof.
  unfold writes_then_fail.
  apply blind_bind; [apply blind_run_writes | intros _; apply blind_raise].
Qed.

Lemma blind_run_call (c : call) : console_blind (run_call self c).
Proof.
  destruct c as [| | | | |c|out_buf ws [tag|]]; simpl;
    (apply blind_bind; [|intros; apply blind_ret]); auto with blind.
  - apply blind_run_write.
  - apply blind_capture, blind_writes_then_fail.
  - apply blind_capture, blind_run_writes.
Qed.

(** What a caller observes of any sequence of calls is the same in two
    similar worlds, and the worlds stay similar. *)
Lemma run_calls_sim (cs : list call) :
  forall w1 w2 : world,
    world_sim w1 w2 ->
    fst (run_calls self cs w1) = fst (run_calls self cs w2) /\
    world_sim (snd (run_calls self cs w1)) (snd (run_calls self cs w2)).
Proof.
  induction cs as [|c cs IH]; intros w1 w2 H; simpl; [now split|].
  destruct (blind_run_call c w1 w2 H) as [Hr Hw].
  destruct (run_call self c w1) as [r1 w1'], (run_call self c w2) as [r2 w2'].
  simpl in Hr, Hw. subst r2.
  destruct (IH w1' w2' Hw) as [Hrs Hws].
  destruct (run_calls self cs w1') as [rs1 w1''],
           (run_calls self cs w2') as [rs2 w2''].
  simpl in *. subst rs2. now split.
Qed.

End blind_methods.

(** ** The invariant of a caller *)

Section invariant.

Variable self : loc.

(** Well-formedness looks at the facade and the buffers, and only at the
    kind of the other objects. *)
Lemma host_stream_shape (w w' : world) (l : loc) :
  same_shape w w' -> host_stream w l -> host_stream w' l.
Proof.
  intros [_ Hh] [d Hd].
  destruct (Hh l) as [E|[[d1 [d2 [E1 E2]]]|[x [y [E1 E2]]]]].
  - exists d. now rewrite E.
  - now exists d2.
  - congruence.
Qed.

Lemma session_shape (w w' : world) (m : IOManager) (vo ve : string) :
  same_shape w w' -> session w self m vo ve -> session w' self m vo ve.
Proof.
  intros [_ Hh] [Hf Hno Hne Ho He Hsep].
  assert (Hkeep : forall (l : loc) (o : obj),
             heap w !! l = Some o ->
             (forall d, o <> Console d) -> (forall x, o <> Dict x) ->
             heap w' !! l = Some o).
  { intros l o Hl Hc Hd.
    destruct (Hh l) as [E|[[d1 [d2 [E1 E2]]]|[x [y [E1 E2]]]]].
    - now rewrite E.
    - rewrite Hl in E1. injection E1 as ->. now destruct (Hc d1).
    - rewrite Hl in E1. injection E1 as ->. now destruct (Hd x). }
  constructor; try assumption; now apply Hkeep.
Qed.

Lemma well_formed_shape (w w' : world) :
  same_shape w w' -> well_formed self w -> well_formed self w'.
Proof.
  intros Hsh [c [Hf Hc]].
  pose proof Hsh as [Hsys Hh].
  exists c. split.
  - destruct (Hh self) as [E|[[d1 [d2 [E1 E2]]]|[x [y [E1 E2]]]]];
      [now rewrite E | congruence | congruence].
  - destruct c as [m|].
    + destruct Hc as [[vo [ve Hs]] [Hro [Hre Hmode]]].
      split; [exists vo, ve; now apply session_shape with (w := w)|].
      split; [now apply host_stream_shape with (w := w)|].
      split; [now apply host_stream_shape with (w := w)|].
      unfold buffered, suspended in *. now rewrite Hsys.
    + destruct Hc as [[lo [Hlo Ho]] [le [Hle He]]]. split.
      * exists lo. rewrite Hsys.
        split; [exact Hlo | now apply host_stream_shape with (w := w)].
      * exists le. rewrite Hsys.
        split; [exact Hle | now apply host_stream_shape with (w := w)].
Qed.

(** Delivery to a host stream, and an item assignment, keep the shape. *)
Lemma same_shape_console (w : world) (l : loc) (d d' : string) :
  heap w !! l = Some (Console d) ->
  same_shape w (World (sys w) (<[l := Console d']> (heap w))).
Proof.
  intros Hl. split; [reflexivity|]. intros l'. simpl.
  destruct (decide (l = l')) as [<-|Hne].
  - right. left. exists d, d'. now rewrite lookup_insert_eq.
  - left. now rewrite lookup_insert_ne.
Qed.

Lemma same_shape_dict (w : world) (l : loc) (x y : gmap string pyval) :
  heap w !! l = Some (Dict x) ->
  same_shape w (World (sys w) (<[l := Dict y]> (heap w))).
Proof.
  intros Hl. split; [reflexivity|]. intros l'. simpl.
  destruct (decide (l = l')) as [<-|Hne].
  - right. right. exists x, y. now rewrite lookup_insert_eq.
  - left. now rewrite lookup_insert_ne.
Qed.

Lemma preserves_ret {A} (a : A) : preserves self (ret a).
Proof. intros w H. exact H. Qed.

Lemma preserves_raise {A} (e : exn) : preserves self (@raise A e).
Proof. intros w H. exact H. Qed.

Lemma preserves_bind {A B} (c : M A) (k : A -> M B) :
  preserves self c -> (forall a, preserves self (k a)) ->
  preserves self (bind c k).
Proof.
  intros Hc Hk w H. unfold bind. specialize (Hc w H).
  destruct (c w) as [[a|e] w1]; simpl in *; [now apply Hk | exact Hc].
Qed.

Lemma preserves_try_finally {A} (body : M A) (fin : M unit) :
  preserves self body -> preserves self fin ->
  preserves self (try_finally body fin).
Proof.
  intros Hb Hf w H. unfold try_finally. specialize (Hb w H).
  destruct (body w) as [r w1]. simpl in Hb. specialize (Hf w1 Hb).
  destruct (fin w1) as [[u|e] w2]; exact Hf.
Qed.

Lemma preserves_setitem (d : loc) (k : string) (v : pyval) :
  preserves self (setitem d k v).
Proof.
  intros w H. unfold setitem.
  destruct (heap w !! d) as [[?|?|items|?]|] eqn:Hd; try exact H.
  simpl. apply well_formed_shape with (w := w); [|exact H].
  now apply same_shape_dict with (x := items).
Qed.

End invariant.

Section invariant_methods.

Variable self : loc.

Lemma preserves_resume_capture : preserves self (resume_capture self).
Proof.
  intros w [[m|] [Hf Hc]].
  - rewrite (resume_capture_spec self m w Hf). simpl.
    destruct Hc as [[vo [ve Hs]] [Hro [Hre _]]].
    exists (Some m). split; [exact Hf|].
    split; [exists vo, ve; now apply session_heap with (w := w)|].
    split; [exact Hro|]. split; [exact Hre|].
    left. now apply session_buffered_resumed with (self := self) (vo := vo) (ve := ve).
  - rewrite (resume_capture_idle self w Hf). now exists None.
Qed.

Lemma preserves_suspend_capture : preserves self (suspend_capture self).
Proof.
  intros w [[m|] [Hf Hc]].
  - rewrite (suspend_capture_spec self m w Hf). simpl.
    destruct Hc as [[vo [ve Hs]] [Hro [Hre _]]].
    exists (Some m). split; [exact Hf|].
    split; [exists vo, ve; now apply session_heap with (w := w)|].
    split; [exact Hro|]. split; [exact Hre|].
    right. now apply session_suspended_halted with (self := self) (vo := vo) (ve := ve).
  - rewrite (suspend_capture_idle self w Hf). now exists None.
Qed.

Lemma preserves_read_capture : preserves self (read_capture self).
Proof.
  intros w [[m|] [Hf Hc]].
  - destruct Hc as [[vo [ve Hs]] [[d_o Hro] [[de Hre] Hmode]]].
    pose proof Hs as [_ Hno Hne Ho He Hsep].
    rewrite (read_capture_spec self m w _ _ _ _ Ho He Hsep Hf). simpl.
    exists (Some m). split; [now apply drained_facade with (vo := vo) (ve := ve)
                                   (po := String.length vo) (pe := String.length ve)|].
    split; [exists "", ""; constructor; try assumption|].
    + now apply drained_facade with (vo := vo) (ve := ve)
                                   (po := String.length vo) (pe := String.length ve).
    + now apply drained_out.
    + now apply drained_err.
    + split; [exists d_o; rewrite drained_other; [exact Hro | congruence | congruence]|].
      split; [exists de; rewrite drained_other; [exact Hre | congruence | congruence]|].
      exact Hmode.
  - rewrite (read_capture_idle self w Hf). now exists None.
Qed.

(** A write lands in the buffer of its channel when capture is on, in a
    host stream otherwise; it always succeeds. *)
Lemma run_write_well_formed (c : write_cmd) (w : world) :
  well_formed self w ->
  fst (run_write c w) = Ok tt /\ well_formed self (snd (run_write c w)).
Proof.
  intros Hwf. pose proof Hwf as [[m|] [Hf Hc]].
  - destruct Hc as [[vo [ve Hs]] [[d_o Hro] [[de Hre] [[Hbo Hbe]|[Hso Hse]]]]];
      pose proof Hs as [_ Hno Hne Ho He Hsep].
    + (* capture is on *)
      rewrite Hno in Hbo. rewrite Hne in Hbe.
      destruct c as [s|s]; simpl.
      * rewrite (sys_write_buffer "stdout" _ vo s w Hbo Ho). simpl.
        split; [reflexivity|]. exists (Some m). simpl.
        split; [rewrite lookup_insert_ne by congruence; exact Hf|].
        split; [exists (vo +:+ s), ve; constructor; simpl; try assumption|].
        -- rewrite lookup_insert_ne by congruence; exact Hf.
        -- apply lookup_insert_eq.
        -- rewrite lookup_insert_ne by congruence; exact He.
        -- split; [exists d_o; simpl; rewrite lookup_insert_ne by congruence; exact Hro|].
           split; [exists de; simpl; rewrite lookup_insert_ne by congruence; exact Hre|].
           left. split; simpl; [now rewrite Hno | now rewrite Hne].
      * rewrite (sys_write_buffer "stderr" _ ve s w Hbe He). simpl.
        split; [reflexivity|]. exists (Some m). simpl.
        split; [rewrite lookup_insert_ne by congruence; exact Hf|].
        split; [exists vo, (ve +:+ s); constructor; simpl; try assumption|].
        -- rewrite lookup_insert_ne by congruence; exact Hf.
        -- rewrite lookup_insert_ne by congruence; exact Ho.
        -- apply lookup_insert_eq.
        -- split; [exists d_o; simpl; rewrite lookup_insert_ne by congruence; exact Hro|].
           split; [exists de; simpl; rewrite lookup_insert_ne by congruence; exact Hre|].
           left. split; simpl; [now rewrite Hno | now rewrite Hne].
    + (* capture is suspended *)
      rewrite Hno in Hso. rewrite Hne in Hse.
      destruct c as [s|s]; simpl;
        unfold sys_write, bind, getattr_sys, stream_write;
        [rewrite Hso, Hro | rewrite Hse, Hre]; simpl;
        (split; [reflexivity|]);
        (eapply well_formed_shape; [|exact Hwf]);
        eapply same_shape_console; eassumption.
  - destruct Hc as [[lo [Hlo [d_o Ho]]] [le [Hle [de He]]]].
    destruct c as [s|s]; simpl;
      unfold sys_write, bind, getattr_sys, stream_write;
      [rewrite Hlo, Ho | rewrite Hle, He]; simpl;
      (split; [reflexivity|]);
      (eapply well_formed_shape; [|exact Hwf]);
      eapply same_shape_console; eassumption.
Qed.

Lemma preserves_run_write (c : write_cmd) : preserves self (run_write c).
Proof. intros w H. now apply run_write_well_formed. Qed.

Lemma preserves_run_writes (ws : list write_cmd) : preserves self (run_writes ws).
Proof.
  induction ws as [|c ws IH]; simpl; [apply preserves_ret|].
  apply preserves_bind; [apply preserves_run_write | intros _; exact IH].
Qed.

Lemma preserves_writes_then_fail (ws : list write_cmd) (tag : nat) :
  preserves self (writes_then_fail ws tag).
Proof.
  unfold writes_then_fail.
  apply preserves_bind; [apply preserves_run_writes | intros _; apply preserves_raise].
Qed.

Lemma preserves_capture (out_buf : loc) (body : M unit) :
  preserves self body -> preserves self (capture self out_buf body).
Proof.
  intros Hb. unfold capture.
  apply preserves_bind; [apply preserves_resume_capture | intros _].
  apply preserves_bind;
    [apply preserves_try_finally; [exact Hb | apply preserves_suspend_capture]
    | intros _].
  apply preserves_bind; [apply preserves_read_capture | intros r].
  apply preserves_bind; [apply preserves_setitem | intros _].
  apply preserves_setitem.
Qed.

End invariant_methods.

(** ** Starting and stopping a session *)

Section lifecycle.

Variable self : loc.

Lemma fresh_not_bound (h : gmap loc obj) (l : loc) (o : obj) :
  h !! l = Some o -> l ≠ fresh (dom h).
Proof.
  intros Hl ->. apply (is_fresh (dom h)).
  apply elem_of_dom. now exists o.
Qed.

Lemma sys_io_name_1 : sys_io_name !! 1 = Some "stdout".
Proof. reflexivity. Qed.

Lemma sys_io_name_2 : sys_io_name !! 2 = Some "stderr".
Proof. reflexivity. Qed.

(** [StdCapture(fd)]: the channel's stream is noted, a buffer is made. *)
Lemma StdCapture_init_spec (fd : Z) (nm : string) (l : loc) (w : world) :
  (fd = 1 \/ fd = 2) ->
  sys_io_name !! fd = Some nm ->
  sys w !! nm = Some l ->
  StdCapture_init fd w
  = (Ok {| name := nm; _old := l; tmp_io := fresh (dom (heap w)) |},
     World (sys w) (<[fresh (dom (heap w)) := Buffer StringIO.new]> (heap w))).
Proof.
  intros Hfd Hnm Hl. unfold StdCapture_init, bind, assert.
  rewrite bool_decide_eq_true_2 by exact Hfd. simpl.
  rewrite Hnm. simpl. unfold getattr_sys. rewrite Hl. reflexivity.
Qed.

Lemma buffers_apart (w : world) : first_buffer w ≠ second_buffer w.
Proof.
  unfold second_buffer. intros E.
  apply (is_fresh (dom (<[first_buffer w := Buffer StringIO.new]> (heap w)))).
  rewrite <- E. apply elem_of_dom. rewrite lookup_insert_eq. now eexists.
Qed.

Lemma bound_not_first (w : world) (l : loc) (o : obj) :
  heap w !! l = Some o -> l ≠ first_buffer w.
Proof. apply fresh_not_bound. Qed.

Lemma bound_not_second (w : world) (l : loc) (o : obj) :
  heap w !! l = Some o -> l ≠ second_buffer w.
Proof.
  intros Hl. unfold second_buffer.
  apply (fresh_not_bound _ l o).
  rewrite lookup_insert_ne; [exact Hl|].
  intros E. now apply (bound_not_first w l o).
Qed.

Lemma start_capturing_spec (w : world) (lo le : loc) :
  heap w !! self = Some (Facade None) ->
  sys w !! "stdout" = Some lo ->
  sys w !! "stderr" = Some le ->
  start_capturing self w = (Ok tt, started self w lo le).
Proof.
  intros Hf Hlo Hle.
  pose proof (bound_not_first w self _ Hf) as H1.
  pose proof (bound_not_second w self _ Hf) as H2.
  unfold start_capturing, bind at 1. unfold get_capture at 1. rewrite Hf.
  unfold bind at 1. simpl assert. unfold ret at 1.
  unfold bind at 1.
  rewrite (StdCapture_init_spec 1 "stdout" lo w (or_introl eq_refl)
             sys_io_name_1 Hlo).
  unfold bind at 1.
  rewrite (StdCapture_init_spec 2 "stderr" le
             (World (sys w) (<[fresh (dom (heap w)) := Buffer StringIO.new]> (heap w)))
             (or_intror eq_refl) sys_io_name_2 Hle).
  unfold bind, set_capture, get_capture. simpl.
  fold (first_buffer w). fold (second_buffer w).
  rewrite !lookup_insert_ne by congruence. rewrite Hf.
  simpl. rewrite lookup_insert_eq. reflexivity.
Qed.

Lemma started_session (w : world) (lo le : loc) :
  heap w !! self = Some (Facade None) ->
  session (started self w lo le) self (new_manager w lo le) "" "" /\
  buffered (started self w lo le) (new_manager w lo le).
Proof.
  intros Hf.
  pose proof (bound_not_first w self _ Hf) as H1.
  pose proof (bound_not_second w self _ Hf) as H2.
  pose proof (buffers_apart w) as H3.
  split; [constructor|split]; simpl; try reflexivity.
  - apply lookup_insert_eq.
  - rewrite !lookup_insert_ne by congruence. apply lookup_insert_eq.
  - rewrite lookup_insert_ne by congruence. apply lookup_insert_eq.
  - exact H3.
  - rewrite lookup_insert_ne by discriminate. apply lookup_insert_eq.
  - apply lookup_insert_eq.
Qed.

Lemma started_other (w : world) (lo le l : loc) (d : string) :
  heap w !! self = Some (Facade None) ->
  heap w !! l = Some (Console d) ->
  heap (started self w lo le) !! l = Some (Console d).
Proof.
  intros Hf Hl. simpl.
  pose proof (bound_not_first w l _ Hl).
  pose proof (bound_not_second w l _ Hl).
  rewrite !lookup_insert_ne by congruence. exact Hl.
Qed.

Lemma preserves_start_capturing : preserves self (start_capturing self).
Proof.
  intros w [[m|] [Hf Hc]].
  - rewrite (start_capturing_active self w m Hf). now exists (Some m).
  - destruct Hc as [[lo [Hlo [d_o Ho]]] [le [Hle [de He]]]].
    rewrite (start_capturing_spec w lo le Hf Hlo Hle). simpl snd.
    destruct (started_session w lo le Hf) as [Hs Hb].
    exists (Some (new_manager w lo le)). split; [apply Hs|].
    split; [now exists "", ""|].
    split; [exists d_o; now apply started_other|].
    split; [exists de; now apply started_other|].
    now left.
Qed.

Lemma stop_capturing_spec (w : world) (m : IOManager) (vo ve : string) :
  session w self m vo ve ->
  stop_capturing self w = (Ok tt, stopped self m w vo ve).
Proof.
  intros [Hf Hno Hne Ho He Hsep].
  unfold stop_capturing, bind at 1. unfold get_capture at 1. rewrite Hf.
  unfold IOManager_finish, StdCapture_finish, bind, setattr_sys, on_buffer,
    set_capture.
  simpl. rewrite Ho. simpl.
  rewrite lookup_insert_ne by congruence. rewrite He. simpl.
  rewrite !lookup_insert_ne by congruence. rewrite Hf. reflexivity.
Qed.

Lemma preserves_stop_capturing : preserves self (stop_capturing self).
Proof.
  intros w [[m|] [Hf Hc]].
  - destruct Hc as [[vo [ve Hs]] [[d_o Hro] [[de Hre] _]]].
    rewrite (stop_capturing_spec w m vo ve Hs). simpl snd.
    pose proof Hs as [_ Hno Hne Ho He Hsep].
    exists None. split; [simpl; apply lookup_insert_eq|].
    split.
    + exists (_old (_out m)). split.
      * simpl. rewrite <- Hno.
        rewrite lookup_insert_ne by (rewrite Hno, Hne; discriminate).
        apply lookup_insert_eq.
      * exists d_o. simpl. rewrite !lookup_insert_ne by congruence. exact Hro.
    + exists (_old (_err m)). split.
      * simpl. rewrite <- Hne. apply lookup_insert_eq.
      * exists de. simpl. rewrite !lookup_insert_ne by congruence. exact Hre.
  - unfold stop_capturing, bind, get_capture. rewrite Hf. now exists None.
Qed.

Lemma preserves_run_call (c : call) : preserves self (run_call self c).
Proof.
  destruct c as [| | | | |c|out_buf ws [tag|]]; simpl;
    (apply preserves_bind; [|intros; apply preserves_ret]).
  - apply preserves_start_capturing.
  - apply preserves_stop_capturing.
  - apply preserves_resume_capture.
  - apply preserves_suspend_capture.
  - apply preserves_read_capture.
  - apply preserves_run_write.
  - apply preserves_capture, preserves_writes_then_fail.
  - apply preserves_capture, preserves_run_writes.
Qed.

(** In a well-formed world an active session has its buffers open and at
    their end. *)
Lemma well_formed_session (w : world) (m : IOManager) :
  well_formed self w ->
  heap w !! self = Some (Facade (Some m)) ->
  exists vo ve : string, session w self m vo ve.
Proof.
  intros [c [Hf Hc]] Hm. rewrite Hm in Hf. injection Hf as <-.
  now destruct Hc as [Hs _].
Qed.

(** Whatever a caller does with the facade and [print], the world stays
    well formed. *)
Lemma run_calls_well_formed (cs : list call) :
  forall w : world,
    well_formed self w -> well_formed self (snd (run_calls self cs w)).
Proof.
  induction cs as [|c cs IH]; intros w H; simpl; [exact H|].
  pose proof (preserves_run_call c w H) as H1.
  destruct (run_call self c w) as [r w1]. simpl in H1.
  specialize (IH w1 H1).
  destruct (run_calls self cs w1) as [rs w2]. exact IH.
Qed.

End lifecycle.

(** ** Scenarios *)

Section scenarios.

(** The example process is well formed, and stays so under any calls. *)
Lemma w_idle_well_formed : well_formed io_capture w_idle.
Proof.
  exists None. split; [vm_compute; reflexivity|]. split.
  - exists 2%positive. split; [vm_compute; reflexivity|].
    exists "". vm_compute; reflexivity.
  - exists 3%positive. split; [vm_compute; reflexivity|].
    exists "". vm_compute; reflexivity.
Qed.

Lemma reachable_well_formed (cs : list call) :
  well_formed io_capture (snd (run_calls io_capture cs w_idle)).
Proof. apply run_calls_well_formed, w_idle_well_formed. Qed.

(** The sink holds what the scope printed; what is printed after the
    session goes to the host stream. *)
Example scenario_one_runs :
  fst (scenario_one w_idle) = Ok tt /\
  heap (snd (scenario_one w_idle)) !! result_dict
  = Some (Dict (<["err" := VStr ("world" +:+ nl)]>
                  (<["out" := VStr ("hello" +:+ nl)]> ∅))) /\
  heap (snd (scenario_one w_idle)) !! 2%positive = Some (Console "after") /\
  heap (snd (scenario_one w_idle)) !! io_capture = Some (Facade None).
Proof. vm_compute. repeat split; reflexivity. Qed.

(** Nothing is carried over from one scope to the next. *)
Example scenario_two_runs :
  fst (scenario_two w_idle) = Ok tt /\
  heap (snd (scenario_two w_idle)) !! result_dict
  = Some (Dict (<["err" := VStr ""]> (<["out" := VStr "A"]> ∅))) /\
  heap (snd (scenario_two w_idle)) !! used_dict
  = Some (Dict (<["err" := VStr ""]> (<["out" := VStr "B"]> used_items))).
Proof. vm_compute. repeat split; reflexivity. Qed.

End scenarios.

(** * The claims *)

(** C1 (as amended).  A scope around the writes [ws], in a session whose
    buffers hold [vo] and [ve] when the scope is entered, completes and
    leaves in the sink, under "out", [vo] followed by the concatenation of
    the texts written to the output channel, and under "err", [ve]
    followed by the concatenation of the texts written to the error
    channel; both buffers are empty afterwards and capture is suspended.
    With empty buffers at entry the sink holds exactly what was written
    inside the scope. *)
Theorem C1_scope_captures_writes
    (self out_buf : loc) (m : IOManager) (w : world)
    (vo ve : string) (items : gmap string pyval) (ws : list write_cmd) :
  session w self m vo ve ->
  heap w !! out_buf = Some (Dict items) ->
  exists w' : world,
    capture self out_buf (run_writes ws) w = (Ok tt, w') /\
    heap w' !! out_buf
    = Some (Dict (<["err" := VStr (ve +:+ err_text ws)]>
                    (<["out" := VStr (vo +:+ out_text ws)]> items))) /\
    session w' self m "" "" /\
    suspended w' m.
Proof.
  intros Hs Hd.
  assert (Hs0 : session (resumed m w) self m vo ve)
    by (now apply session_heap with (w := w)).
  pose proof (session_buffered_resumed self m w vo ve Hs) as Hb0.
  destruct (run_writes_buffered self m ws (resumed m w) vo ve Hs0 Hb0)
    as [w1 [Hrun [Hsys Hs1]]].
  pose proof (keeps_run_writes out_buf ws (resumed m w) items Hd) as Hd1.
  rewrite Hrun in Hd1. simpl in Hd1.
  pose proof Hs as [Hf _ _ _ _ _].
  pose proof Hs1 as [Hf1 Hno Hne Ho1 He1 Hsep].
  assert (Hdo : out_buf ≠ tmp_io (_out m)) by congruence.
  assert (Hde : out_buf ≠ tmp_io (_err m)) by congruence.
  assert (Hfo : self ≠ tmp_io (_out m)) by congruence.
  assert (Hfe : self ≠ tmp_io (_err m)) by congruence.
  assert (Hfd : self ≠ out_buf) by congruence.
  eexists. split; [|split; [|split]].
  - unfold capture, bind at 1.
    rewrite (resume_capture_spec self m w Hf).
    unfold bind at 1. unfold try_finally.
    rewrite Hrun, (suspend_capture_spec self m w1 Hf1).
    unfold bind at 1.
    rewrite (read_capture_spec self m (halted m w1) _ _ _ _ Ho1 He1 Hsep Hf1).
    unfold bind, setitem. simpl.
    rewrite !lookup_insert_ne by congruence. rewrite Hd1. simpl.
    rewrite lookup_insert_eq, insert_insert_eq. reflexivity.
  - simpl. apply lookup_insert_eq.
  - constructor; simpl; try assumption.
    + rewrite !lookup_insert_ne by congruence. exact Hf1.
    + rewrite lookup_insert_ne by congruence.
      rewrite lookup_insert_ne by congruence. apply lookup_insert_eq.
    + rewrite lookup_insert_ne by congruence. apply lookup_insert_eq.
  - apply (session_suspended_halted self m w1 _ _ Hs1).
Qed.

Lemma C1_witness :
  exists w' : world,
    capture io_capture result_dict
      (run_writes [to_stdout "hello"; to_stdout "world"; to_stderr "again"])
      w_started
    = (Ok tt, w') /\
    heap w' !! result_dict
    = Some (Dict (<["err" := VStr "again"]>
                    (<["out" := VStr "helloworld"]> ∅))) /\
    session w' io_capture manager0 "" "" /\
    suspended w' manager0.
Proof.
  apply (C1_scope_captures_writes io_capture result_dict manager0 w_started
           "" "" ∅
           [to_stdout "hello"; to_stdout "world"; to_stderr "again"]).
  - constructor; vm_compute; first [reflexivity | lia].
  - vm_compute; reflexivity.
Defined.

(** C1 as the spec words it fails when text was written between
    [start_capturing] and the scope: capture is on from [start_capturing],
    so "pre" is in the buffer when the scope is entered and the sink holds
    "preA" under "out", not the "A" written inside the scope. *)
Lemma C1_counterexample :
  ~ scope_sink_exact io_capture result_dict [to_stdout "A"] w_pre.
Proof.
  intros [w' [items [Hrun [Hd [Ho _]]]]].
  assert (Hw : w' = snd (capture io_capture result_dict
                           (run_writes [to_stdout "A"]) w_pre))
    by (now rewrite Hrun).
  subst w'.
  assert (Hd' : heap (snd (capture io_capture result_dict
                             (run_writes [to_stdout "A"]) w_pre))
                  !! result_dict
                = Some (Dict (<["err" := VStr ""]> (<["out" := VStr "preA"]> ∅))))
    by (vm_compute; reflexivity).
  rewrite Hd' in Hd. injection Hd as <-.
  vm_compute in Ho. discriminate Ho.
Qed.

(** C2.  When the unit of work of a scope raises, in a session that is
    still there when it does: [suspend_capture] runs all the same (both
    channels name their real stream again), the failure is what the scope
    raises, and nothing after the [try] runs -- the heap is as the unit of
    work left it, so the sink is not populated and the buffers are not
    drained. *)
Theorem C2_scope_failure
    (self out_buf : loc) (m : IOManager) (body : M unit)
    (w w1 : world) (e : exn) :
  heap w !! self = Some (Facade (Some m)) ->
  name (_out m) ≠ name (_err m) ->
  body (resumed m w) = (Raise e, w1) ->
  heap w1 !! self = Some (Facade (Some m)) ->
  exists w' : world,
    capture self out_buf body w = (Raise e, w') /\
    suspended w' m /\
    heap w' = heap w1 /\
    (heap w1 !! out_buf = heap w !! out_buf ->
     heap w' !! out_buf = heap w !! out_buf).
Proof.
  intros Hf Hnm Hbody Hf1.
  exists (halted m w1).
  split; [|split; [|split]].
  - unfold capture, bind at 1.
    rewrite (resume_capture_spec self m w Hf).
    unfold bind, try_finally.
    rewrite Hbody. now rewrite (suspend_capture_spec self m w1 Hf1).
  - split; simpl.
    + rewrite lookup_insert_ne by congruence. apply lookup_insert_eq.
    + apply lookup_insert_eq.
  - reflexivity.
  - intros Hk. exact Hk.
Qed.

Lemma C2_witness :
  exists w' : world,
    capture io_capture used_dict
      (writes_then_fail [to_stdout "partial"] 7) w_started
    = (Raise (Failure 7), w') /\
    suspended w' manager0 /\
    heap w' = heap (snd (writes_then_fail [to_stdout "partial"] 7
                           (resumed manager0 w_started))) /\
    (heap (snd (writes_then_fail [to_stdout "partial"] 7
                  (resumed manager0 w_started))) !! used_dict
     = heap w_started !! used_dict ->
     heap w' !! used_dict = heap w_started !! used_dict).
Proof.
  apply (C2_scope_failure io_capture used_dict manager0
           (writes_then_fail [to_stdout "partial"] 7) w_started
           (snd (writes_then_fail [to_stdout "partial"] 7
                   (resumed manager0 w_started)))
           (Failure 7)).
  - vm_compute; reflexivity.
  - vm_compute; intros E; discriminate E.
  - vm_compute; reflexivity.
  - vm_compute; reflexivity.
Defined.

(** C3.  Drain is destructive.  In a session with open buffers holding
    [vo] and [ve], the first of two consecutive [read_capture] calls
    answers [(vo, ve)], both buffers are empty right after it, and the
    second call answers two empty strings (and changes nothing more). *)
Theorem C3_drain_is_destructive
    (self : loc) (m : IOManager) (w : world) (vo ve : string) (po pe : nat) :
  heap w !! self = Some (Facade (Some m)) ->
  heap w !! tmp_io (_out m) = Some (Buffer (StringIO.mk vo po false)) ->
  heap w !! tmp_io (_err m) = Some (Buffer (StringIO.mk ve pe false)) ->
  tmp_io (_out m) ≠ tmp_io (_err m) ->
  exists w1 w2 : world,
    read_capture self w = (Ok (vo, ve), w1) /\
    heap w1 !! tmp_io (_out m) = Some (Buffer (StringIO.mk "" 0 false)) /\
    heap w1 !! tmp_io (_err m) = Some (Buffer (StringIO.mk "" 0 false)) /\
    read_capture self w1 = (Ok ("", ""), w2) /\
    heap w2 !! tmp_io (_out m) = Some (Buffer (StringIO.mk "" 0 false)) /\
    heap w2 !! tmp_io (_err m) = Some (Buffer (StringIO.mk "" 0 false)).
Proof.
  intros Hf Ho He Hne.
  pose proof (drained_out m w Hne) as Ho1.
  pose proof (drained_err m w) as He1.
  pose proof (drained_facade self m w _ _ _ _ Ho He _ Hf) as Hf1.
  exists (drained m w), (drained m w).
  split; [now apply read_capture_spec with (po := po) (pe := pe)|].
  split; [exact Ho1|]. split; [exact He1|].
  split; [|split; [exact Ho1 | exact He1]].
  rewrite <- (drained_twice m w) at 2.
  now apply read_capture_spec with (po := 0%nat) (pe := 0%nat).
Qed.

Lemma C3_witness :
  exists w1 w2 : world,
    read_capture io_capture w_printed = (Ok ("hello", "oops"), w1) /\
    heap w1 !! tmp_io out0 = Some (Buffer (StringIO.mk "" 0 false)) /\
    heap w1 !! tmp_io err0 = Some (Buffer (StringIO.mk "" 0 false)) /\
    read_capture io_capture w1 = (Ok ("", ""), w2) /\
    heap w2 !! tmp_io out0 = Some (Buffer (StringIO.mk "" 0 false)) /\
    heap w2 !! tmp_io err0 = Some (Buffer (StringIO.mk "" 0 false)).
Proof.
  apply (C3_drain_is_destructive io_capture manager0 w_printed
           "hello" "oops" 5%nat 4%nat);
    vm_compute; [reflexivity .. | lia].
Defined.

(** C4.  A write issued while capture is suspended -- both channels name
    the stream found at construction, here a host stream -- is delivered
    to that stream and to nothing else: the buffers and every other object
    are as before, and whatever the caller does next ([read_capture],
    scopes, a new session, ...), each call answers what it would have
    answered without the write and every sink ends up the same.  (The
    state right after [start_capturing] is not suspended: capture is on.) *)
Theorem C4_suspended_write
    (self : loc) (m : IOManager) (w : world) (vo ve d : string)
    (c : write_cmd) :
  session w self m vo ve ->
  suspended w m ->
  heap w !! cmd_target m c = Some (Console d) ->
  exists w' : world,
    run_write c w = (Ok tt, w') /\
    heap w' !! cmd_target m c = Some (Console (d +:+ cmd_text c)) /\
    (forall l : loc, l ≠ cmd_target m c -> heap w' !! l = heap w !! l) /\
    sys w' = sys w /\
    session w' self m vo ve /\
    (forall cs : list call,
        fst (run_calls self cs w') = fst (run_calls self cs w) /\
        world_sim (snd (run_calls self cs w')) (snd (run_calls self cs w))).
Proof.
  intros Hs [Hso Hse] Hr.
  pose proof Hs as [Hf Hno Hne Ho He Hsep].
  rewrite Hno in Hso. rewrite Hne in Hse.
  exists (World (sys w) (<[cmd_target m c := Console (d +:+ cmd_text c)]> (heap w))).
  split; [|split; [|split; [|split; [|split]]]].
  - destruct c as [s|s]; simpl in *;
      unfold sys_write, bind, getattr_sys, stream_write;
      [rewrite Hso | rewrite Hse]; now rewrite Hr.
  - simpl. apply lookup_insert_eq.
  - intros l Hl. simpl. now rewrite lookup_insert_ne by congruence.
  - reflexivity.
  - constructor; simpl; try assumption;
      rewrite lookup_insert_ne by congruence; assumption.
  - intros cs. apply run_calls_sim.
    split; [reflexivity|]. intros l. simpl.
    destruct (decide (cmd_target m c = l)) as [<-|Hl].
    + rewrite lookup_insert_eq, Hr. right. now eexists _, _.
    + rewrite lookup_insert_ne by exact Hl. apply obj_sim_refl.
Qed.

Lemma C4_witness :
  exists w' : world,
    run_write (to_stdout "direct") w_suspended = (Ok tt, w') /\
    heap w' !! 2%positive = Some (Console "direct") /\
    (forall l : loc, l ≠ 2%positive -> heap w' !! l = heap w_suspended !! l) /\
    sys w' = sys w_suspended /\
    session w' io_capture manager0 "hello" "oops" /\
    (forall cs : list call,
        fst (run_calls io_capture cs w') = fst (run_calls io_capture cs w_suspended) /\
        world_sim (snd (run_calls io_capture cs w'))
                  (snd (run_calls io_capture cs w_suspended))).
Proof.
  apply (C4_suspended_write io_capture manager0 w_suspended
           "hello" "oops" "" (to_stdout "direct")).
  - constructor; vm_compute; first [reflexivity | lia].
  - split; vm_compute; reflexivity.
  - vm_compute; reflexivity.
Defined.

(** C5.  [start_capturing] called while a session is active fails on its
    assertion (the spec's [AlreadyCapturing] is this [AssertionError]), and
    the failing call changes nothing: the facade, both channels and every
    object of the heap are as before. *)
Theorem C5_start_capturing_twice (self : loc) (m : IOManager) (w : world) :
  heap w !! self = Some (Facade (Some m)) ->
  start_capturing self w = (Raise AssertionError, w).
Proof. apply start_capturing_active. Qed.

Lemma C5_witness :
  heap w_started !! io_capture = Some (Facade (Some manager0)) /\
  start_capturing io_capture w_started = (Raise AssertionError, w_started).
Proof.
  assert (H : heap w_started !! io_capture = Some (Facade (Some manager0)))
    by (vm_compute; reflexivity).
  split; [exact H | exact (C5_start_capturing_twice _ _ _ H)].
Defined.

(** C6.  [read_capture] with no session fails on its assertion (the spec's
    [NoActiveSession]) and leaves the world as it was; with a session whose
    buffers are open it answers the pair (output text, error text) held by
    the two buffers, which it drains. *)
Theorem C6_read_capture (self : loc) (w : world) :
  (heap w !! self = Some (Facade None) ->
   read_capture self w = (Raise AssertionError, w)) /\
  (forall (m : IOManager) (vo ve : string) (po pe : nat),
      heap w !! self = Some (Facade (Some m)) ->
      heap w !! tmp_io (_out m) = Some (Buffer (StringIO.mk vo po false)) ->
      heap w !! tmp_io (_err m) = Some (Buffer (StringIO.mk ve pe false)) ->
      tmp_io (_out m) ≠ tmp_io (_err m) ->
      read_capture self w = (Ok (vo, ve), drained m w)).
Proof.
  split.
  - apply read_capture_idle.
  - intros m vo ve po pe Hf Ho He Hne.
    now apply read_capture_spec with (po := po) (pe := pe).
Qed.

Lemma C6_witness :
  read_capture io_capture w_idle = (Raise AssertionError, w_idle) /\
  read_capture io_capture w_printed
  = (Ok ("hello", "oops"), drained manager0 w_printed).
Proof.
  split.
  - apply (proj1 (C6_read_capture io_capture w_idle)).
    vm_compute; reflexivity.
  - apply (proj2 (C6_read_capture io_capture w_printed)
             manager0 "hello" "oops" 5%nat 4%nat);
      vm_compute; [reflexivity .. | lia].
Defined.

(** C7.  With no session, [resume_capture] does nothing and
    [suspend_capture], which has no guard, fails on the method lookup on
    [None]; neither changes the world. *)
Theorem C7_resume_suspend_idle (self : loc) (w : world) :
  heap w !! self = Some (Facade None) ->
  resume_capture self w = (Ok tt, w) /\
  suspend_capture self w = (Raise AttributeError, w).
Proof.
  intros Hf. split.
  - now apply resume_capture_idle.
  - now apply suspend_capture_idle.
Qed.

Lemma C7_witness :
  heap w_idle !! io_capture = Some (Facade None) /\
  resume_capture io_capture w_idle = (Ok tt, w_idle) /\
  suspend_capture io_capture w_idle = (Raise AttributeError, w_idle).
Proof.
  assert (H : heap w_idle !! io_capture = Some (Facade None))
    by (vm_compute; reflexivity).
  split; [exact H | exact (C7_resume_suspend_idle _ _ H)].
Defined.

(** C8.  The stream a redirector restores is the one its channel named
    when the redirector was built.  It is read once, in [__init__]:
    [suspend] and [finish] install that stream whatever the channel names
    by then, and none of [start], [suspend], [resume], [finish] depends on
    the current value of the channel (reassigning it beforehand changes
    nothing of their outcome). *)
Theorem C8_real_target_frozen
    (fd : Z) (w0 w1 : world) (c : StdCapture) :
  StdCapture_init fd w0 = (Ok c, w1) ->
  sys_io_name !! fd = Some (name c) /\
  sys w0 !! name c = Some (_old c) /\
  (forall w : world,
      sys (snd (StdCapture_suspend c w)) !! name c = sys w0 !! name c /\
      sys (snd (StdCapture_finish c w)) !! name c = sys w0 !! name c) /\
  (forall (w : world) (l : loc),
      StdCapture_start c (reassigned (name c) l w) = StdCapture_start c w /\
      StdCapture_suspend c (reassigned (name c) l w) = StdCapture_suspend c w /\
      StdCapture_resume c (reassigned (name c) l w) = StdCapture_resume c w /\
      StdCapture_finish c (reassigned (name c) l w) = StdCapture_finish c w).
Proof.
  intros Hi.
  assert (Hnm : sys_io_name !! fd = Some (name c) /\
                sys w0 !! name c = Some (_old c)).
  { unfold StdCapture_init, bind, assert in Hi.
    destruct (bool_decide (fd = 1 ∨ fd = 2)); [|discriminate Hi].
    simpl in Hi. destruct (sys_io_name !! fd) as [nm|]; [|discriminate Hi].
    simpl in Hi. unfold getattr_sys in Hi.
    destruct (sys w0 !! nm) as [old|] eqn:Hold; [|discriminate Hi].
    simpl in Hi. injection Hi as <- _. simpl. now split. }
  destruct Hnm as [Hn Ho]. split; [exact Hn|]. split; [exact Ho|].
  split.
  - intros w. rewrite Ho. split.
    + simpl. apply lookup_insert_eq.
    + unfold StdCapture_finish, bind, setattr_sys, on_buffer. simpl.
      destruct (heap w !! tmp_io c) as [[d|b|d|f]|]; simpl;
        apply lookup_insert_eq.
  - intros w l.
    assert (Hset : forall x : loc,
               setattr_sys (name c) x (reassigned (name c) l w)
               = setattr_sys (name c) x w).
    { intros x. unfold setattr_sys, reassigned. simpl.
      now rewrite insert_insert_eq. }
    unfold StdCapture_start, StdCapture_suspend, StdCapture_resume,
      StdCapture_finish, bind.
    now rewrite !Hset.
Qed.

Lemma C8_witness :
  sys_io_name !! 1 = Some "stdout" /\
  sys w_idle !! "stdout" = Some 2%positive /\
  (forall w : world,
      sys (snd (StdCapture_suspend out0 w)) !! "stdout" = sys w_idle !! "stdout" /\
      sys (snd (StdCapture_finish out0 w)) !! "stdout" = sys w_idle !! "stdout") /\
  (forall (w : world) (l : loc),
      StdCapture_start out0 (reassigned "stdout" l w) = StdCapture_start out0 w /\
      StdCapture_suspend out0 (reassigned "stdout" l w) = StdCapture_suspend out0 w /\
      StdCapture_resume out0 (reassigned "stdout" l w) = StdCapture_resume out0 w /\
      StdCapture_finish out0 (reassigned "stdout" l w) = StdCapture_finish out0 w).
Proof.
  apply (C8_real_target_frozen 1 w_idle (snd (StdCapture_init 1 w_idle)) out0).
  vm_compute; reflexivity.
Defined.

(** C9.  Within a session, [resume_capture] and [suspend_capture] are
    idempotent: twice in a row is the same as once; after any sequence of
    the two calls the world is the one the last call alone would give; no
    sequence of them changes the heap, hence the text of the buffers; and
    after a resume both channels name their buffer, after a suspend both
    name the stream found at construction. *)
Theorem C9_toggles_idempotent (self : loc) (m : IOManager) (w : world) :
  heap w !! self = Some (Facade (Some m)) ->
  name (_out m) ≠ name (_err m) ->
  (do resume_capture self in resume_capture self) w = resume_capture self w /\
  (do suspend_capture self in suspend_capture self) w = suspend_capture self w /\
  (forall (ts : list toggle) (t : toggle),
      run_toggles self (ts ++ [t]) w = run_toggle self t w) /\
  (forall ts : list toggle,
      fst (run_toggles self ts w) = Ok tt /\
      heap (snd (run_toggles self ts w)) = heap w) /\
  buffered (snd (resume_capture self w)) m /\
  suspended (snd (suspend_capture self w)) m.
Proof.
  intros Hf Hnm.
  pose proof (toggle_absorbs self m Resume Resume w Hf) as Hr.
  pose proof (toggle_absorbs self m Suspend Suspend w Hf) as Hs.
  simpl in Hr, Hs.
  repeat split.
  - unfold bind. rewrite (resume_capture_spec self m w Hf).
    now rewrite (resume_capture_spec self m w Hf) in Hr.
  - unfold bind. rewrite (suspend_capture_spec self m w Hf).
    now rewrite (suspend_capture_spec self m w Hf) in Hs.
  - intros ts t. now apply run_toggles_last with (m := m).
  - now apply run_toggles_heap with (m := m).
  - now apply run_toggles_heap with (m := m).
  - rewrite (resume_capture_spec self m w Hf). simpl.
    rewrite lookup_insert_ne by congruence. apply lookup_insert_eq.
  - rewrite (resume_capture_spec self m w Hf). simpl. apply lookup_insert_eq.
  - rewrite (suspend_capture_spec self m w Hf). simpl.
    rewrite lookup_insert_ne by congruence. apply lookup_insert_eq.
  - rewrite (suspend_capture_spec self m w Hf). simpl. apply lookup_insert_eq.
Qed.

Lemma C9_witness :
  (do resume_capture io_capture in resume_capture io_capture) w_printed
  = resume_capture io_capture w_printed /\
  (do suspend_capture io_capture in suspend_capture io_capture) w_printed
  = suspend_capture io_capture w_printed /\
  (forall (ts : list toggle) (t : toggle),
      run_toggles io_capture (ts ++ [t]) w_printed
      = run_toggle io_capture t w_printed) /\
  (forall ts : list toggle,
      fst (run_toggles io_capture ts w_printed) = Ok tt /\
      heap (snd (run_toggles io_capture ts w_printed)) = heap w_printed) /\
  buffered (snd (resume_capture io_capture w_printed)) manager0 /\
  suspended (snd (suspend_capture io_capture w_printed)) manager0.
Proof.
  apply (C9_toggles_idempotent io_capture manager0 w_printed).
  - vm_compute; reflexivity.
  - vm_compute; intros E; discriminate E.
Defined.

(** C10.  When a scope completes, what it did to the sink is two item
    assignments: the sink holds what it held before under every key other
    than "out" and "err", and the two captured texts under those (whatever
    was there before).  The unit of work is any computation that does not
    itself write to the sink. *)
Theorem C10_sink_frame
    (self out_buf : loc) (body : M unit) (w w' : world)
    (items : gmap string pyval) :
  heap w !! out_buf = Some (Dict items) ->
  keeps_sink out_buf body ->
  capture self out_buf body w = (Ok tt, w') ->
  exists (out err : string) (items' : gmap string pyval),
    heap w' !! out_buf = Some (Dict items') /\
    items' !! "out" = Some (VStr out) /\
    items' !! "err" = Some (VStr err) /\
    forall k : string, k ≠ "out" -> k ≠ "err" -> items' !! k = items !! k.
Proof.
  intros Hd Hbody Hrun.
  unfold capture in Hrun.
  pose proof (keeps_resume_capture out_buf self w items Hd) as H1.
  unfold bind at 1 in Hrun.
  destruct (resume_capture self w) as [[[]|e1] wa]; [|discriminate Hrun].
  simpl in H1.
  pose proof (keeps_try_finally out_buf body (suspend_capture self) Hbody
                (keeps_suspend_capture out_buf self) wa items H1) as H2.
  unfold bind at 1 in Hrun.
  destruct (try_finally body (suspend_capture self) wa) as [[[]|e2] wb];
    [|discriminate Hrun].
  simpl in H2.
  pose proof (keeps_read_capture out_buf self wb items H2) as H3.
  unfold bind at 1 in Hrun.
  destruct (read_capture self wb) as [[[out err]|e3] wc]; [|discriminate Hrun].
  simpl in H3, Hrun.
  unfold bind, setitem in Hrun. rewrite H3 in Hrun. simpl in Hrun.
  rewrite lookup_insert_eq in Hrun. injection Hrun as <-.
  exists out, err, (<["err" := VStr err]> (<["out" := VStr out]> items)).
  split; [|split; [|split]].
  - simpl. rewrite lookup_insert_eq. reflexivity.
  - rewrite lookup_insert_ne by discriminate. apply lookup_insert_eq.
  - apply lookup_insert_eq.
  - intros k Hko Hke.
    rewrite lookup_insert_ne by congruence.
    now rewrite lookup_insert_ne by congruence.
Qed.

Lemma C10_witness :
  exists (out err : string) (items' : gmap string pyval),
    heap (snd (capture io_capture used_dict
                 (run_writes [to_stdout "a"; to_stderr "b"]) w_started))
      !! used_dict = Some (Dict items') /\
    items' !! "out" = Some (VStr out) /\
    items' !! "err" = Some (VStr err) /\
    forall k : string,
      k ≠ "out" -> k ≠ "err" -> items' !! k = used_items !! k.
Proof.
  apply (C10_sink_frame io_capture used_dict
           (run_writes [to_stdout "a"; to_stderr "b"]) w_started).
  - vm_compute; reflexivity.
  - apply keeps_run_writes.
  - vm_compute; reflexivity.
Defined.

(** * Further properties of the code *)

(** ** Building a redirector *)

Section construction.

Lemma StdCapture_init_rejects (fd : Z) (w : world) :
  fd ≠ 1 -> fd ≠ 2 -> StdCapture_init fd w = (Raise AssertionError, w).
Proof.
  intros H1 H2. unfold StdCapture_init, bind, assert.
  rewrite bool_decide_eq_false_2 by (intros [E|E]; contradiction).
  reflexivity.
Qed.

Lemma StdCapture_init_unbound (fd : Z) (nm : string) (w : world) :
  (fd = 1 \/ fd = 2) ->
  sys_io_name !! fd = Some nm ->
  sys w !! nm = None ->
  StdCapture_init fd w = (Raise AttributeError, w).
Proof.
  intros Hfd Hnm Hl. unfold StdCapture_init, bind, assert.
  rewrite bool_decide_eq_true_2 by exact Hfd. simpl.
  rewrite Hnm. simpl. unfold getattr_sys. now rewrite Hl.
Qed.

Lemma fresh_unbound (h : gmap loc obj) : h !! fresh (dom h) = None.
Proof. apply not_elem_of_dom, is_fresh. Qed.

End construction.

(** X1.  [StdCapture(fd)] accepts the descriptors 1 and 2 only: any other
    one, 0 for "stdin" included, fails on the assertion and changes
    nothing.  For 1 and 2 it notes the stream the channel names, makes a
    new empty open buffer at a location not in use, and does not redirect
    anything yet: [sys] and every existing object are as before.  When the
    channel is not an attribute of [sys] it fails with [AttributeError]. *)
Theorem X1_StdCapture_init (fd : Z) (w : world) :
  (fd ≠ 1 -> fd ≠ 2 -> StdCapture_init fd w = (Raise AssertionError, w)) /\
  (forall (nm : string) (l : loc),
      (fd = 1 /\ nm = "stdout") \/ (fd = 2 /\ nm = "stderr") ->
      sys w !! nm = Some l ->
      exists (c : StdCapture) (w' : world),
        StdCapture_init fd w = (Ok c, w') /\
        name c = nm /\ _old c = l /\
        heap w !! tmp_io c = None /\
        heap w' !! tmp_io c = Some (Buffer (StringIO.mk "" 0 false)) /\
        sys w' = sys w /\
        (forall l' : loc, l' ≠ tmp_io c -> heap w' !! l' = heap w !! l')) /\
  (forall nm : string,
      (fd = 1 /\ nm = "stdout") \/ (fd = 2 /\ nm = "stderr") ->
      sys w !! nm = None ->
      StdCapture_init fd w = (Raise AttributeError, w)).
Proof.
  split; [apply StdCapture_init_rejects|]. split.
  - intros nm l Hfd Hl.
    assert (Hok : (fd = 1 \/ fd = 2) /\ sys_io_name !! fd = Some nm).
    { destruct Hfd as [[-> ->]|[-> ->]];
        (split; [auto | reflexivity]). }
    destruct Hok as [Hfd' Hnm].
    eexists _, _. split; [apply (StdCapture_init_spec fd nm l w Hfd' Hnm Hl)|].
    simpl. split; [reflexivity|]. split; [reflexivity|].
    split; [apply fresh_unbound|].
    split; [apply lookup_insert_eq|]. split; [reflexivity|].
    intros l' Hl'. now rewrite lookup_insert_ne by congruence.
  - intros nm Hfd Hl.
    assert (Hok : (fd = 1 \/ fd = 2) /\ sys_io_name !! fd = Some nm).
    { destruct Hfd as [[-> ->]|[-> ->]];
        (split; [auto | reflexivity]). }
    destruct Hok as [Hfd' Hnm].
    now apply StdCapture_init_unbound with (nm := nm).
Qed.

Lemma X1_witness :
  StdCapture_init 0 w_idle = (Raise AssertionError, w_idle) /\
  exists (c : StdCapture) (w' : world),
    StdCapture_init 2 w_idle = (Ok c, w') /\
    name c = "stderr" /\ _old c = 3%positive /\
    heap w_idle !! tmp_io c = None /\
    heap w' !! tmp_io c = Some (Buffer (StringIO.mk "" 0 false)) /\
    sys w' = sys w_idle /\
    (forall l' : loc, l' ≠ tmp_io c -> heap w' !! l' = heap w_idle !! l').
Proof.
  split.
  - apply (proj1 (X1_StdCapture_init 0 w_idle)); lia.
  - apply (proj1 (proj2 (X1_StdCapture_init 2 w_idle)) "stderr" 3%positive).
    + right. split; reflexivity.
    + vm_compute; reflexivity.
Defined.

(** ** A session from start to stop *)

Section start_and_stop.

Variable self : loc.

Lemma first_buffer_unbound (w : world) : heap w !! first_buffer w = None.
Proof. apply fresh_unbound. Qed.

Lemma second_buffer_unbound (w : world) : heap w !! second_buffer w = None.
Proof.
  pose proof (fresh_unbound (<[first_buffer w := Buffer StringIO.new]> (heap w)))
    as H.
  fold (second_buffer w) in H.
  rewrite lookup_insert_ne in H by apply buffers_apart. exact H.
Qed.

(** [stop_capturing] on a session whose buffers exist, open or not. *)
Lemma stop_capturing_closes (w : world) (m : IOManager) (bo be : StringIO.t) :
  heap w !! self = Some (Facade (Some m)) ->
  heap w !! tmp_io (_out m) = Some (Buffer bo) ->
  heap w !! tmp_io (_err m) = Some (Buffer be) ->
  tmp_io (_out m) ≠ tmp_io (_err m) ->
  stop_capturing self w
  = (Ok tt,
     World (<[name (_err m) := _old (_err m)]>
              (<[name (_out m) := _old (_out m)]> (sys w)))
           (<[self := Facade None]>
              (<[tmp_io (_err m) :=
                   Buffer (StringIO.mk (StringIO.value be) (StringIO.pos be) true)]>
                 (<[tmp_io (_out m) :=
                      Buffer (StringIO.mk (StringIO.value bo) (StringIO.pos bo) true)]>
                    (heap w))))).
Proof.
  intros Hf Ho He Hsep.
  unfold stop_capturing, bind at 1. unfold get_capture at 1. rewrite Hf.
  unfold IOManager_finish, StdCapture_finish, bind, setattr_sys, on_buffer,
    set_capture.
  simpl. rewrite Ho. simpl.
  rewrite lookup_insert_ne by congruence. rewrite He. simpl.
  rewrite !lookup_insert_ne by congruence. rewrite Hf. reflexivity.
Qed.

End start_and_stop.

(** X2.  [start_capturing] with no session, in a process whose [sys] has
    both channels, succeeds: the facade holds a manager whose real targets
    are the streams the channels named, whose buffers are two new,
    distinct, empty, open [StringIO], and capture is on at once (both
    channels name their buffer).  Every other object, and every other
    attribute of [sys], is as before. *)
Theorem X2_start_capturing_sets_up (self : loc) (w : world) (lo le : loc) :
  heap w !! self = Some (Facade None) ->
  sys w !! "stdout" = Some lo ->
  sys w !! "stderr" = Some le ->
  exists (m : IOManager) (w' : world),
    start_capturing self w = (Ok tt, w') /\
    _old (_out m) = lo /\ _old (_err m) = le /\
    heap w !! tmp_io (_out m) = None /\
    heap w !! tmp_io (_err m) = None /\
    session w' self m "" "" /\
    buffered w' m /\
    (forall l : loc,
        l ≠ self -> l ≠ tmp_io (_out m) -> l ≠ tmp_io (_err m) ->
        heap w' !! l = heap w !! l) /\
    (forall k : string,
        k ≠ "stdout" -> k ≠ "stderr" -> sys w' !! k = sys w !! k).
Proof.
  intros Hf Hlo Hle.
  exists (new_manager w lo le), (started self w lo le).
  destruct (started_session self w lo le Hf) as [Hs Hb].
  split; [now apply start_capturing_spec|].
  split; [reflexivity|]. split; [reflexivity|].
  split; [apply first_buffer_unbound|].
  split; [apply second_buffer_unbound|].
  split; [exact Hs|]. split; [exact Hb|]. split.
  - intros l H1 H2 H3. simpl in *.
    now rewrite !lookup_insert_ne by congruence.
  - intros k H1 H2. simpl.
    now rewrite !lookup_insert_ne by congruence.
Qed.

Lemma X2_witness :
  exists (m : IOManager) (w' : world),
    start_capturing io_capture w_idle = (Ok tt, w') /\
    _old (_out m) = 2%positive /\ _old (_err m) = 3%positive /\
    heap w_idle !! tmp_io (_out m) = None /\
    heap w_idle !! tmp_io (_err m) = None /\
    session w' io_capture m "" "" /\
    buffered w' m /\
    (forall l : loc,
        l ≠ io_capture -> l ≠ tmp_io (_out m) -> l ≠ tmp_io (_err m) ->
        heap w' !! l = heap w_idle !! l) /\
    (forall k : string,
        k ≠ "stdout" -> k ≠ "stderr" -> sys w' !! k = sys w_idle !! k).
Proof.
  apply (X2_start_capturing_sets_up io_capture w_idle 2%positive 3%positive);
    vm_compute; reflexivity.
Defined.

(** X3.  [stop_capturing] with no session does nothing.  With a session
    it restores both channels to the streams noted at construction,
    closes both buffers (open or already closed), leaves every other
    object alone and forgets the session: right after it [read_capture]
    fails on its assertion and [suspend_capture] on [None]. *)
Theorem X3_stop_capturing (self : loc) (w : world) :
  (heap w !! self = Some (Facade None) -> stop_capturing self w = (Ok tt, w)) /\
  (forall (m : IOManager) (bo be : StringIO.t),
      heap w !! self = Some (Facade (Some m)) ->
      heap w !! tmp_io (_out m) = Some (Buffer bo) ->
      heap w !! tmp_io (_err m) = Some (Buffer be) ->
      tmp_io (_out m) ≠ tmp_io (_err m) ->
      name (_out m) ≠ name (_err m) ->
      exists w' : world,
        stop_capturing self w = (Ok tt, w') /\
        heap w' !! self = Some (Facade None) /\
        suspended w' m /\
        (exists bo' be' : StringIO.t,
            heap w' !! tmp_io (_out m) = Some (Buffer bo') /\
            heap w' !! tmp_io (_err m) = Some (Buffer be') /\
            StringIO.closed bo' = true /\ StringIO.closed be' = true) /\
        (forall l : loc,
            l ≠ self -> l ≠ tmp_io (_out m) -> l ≠ tmp_io (_err m) ->
            heap w' !! l = heap w !! l) /\
        read_capture self w' = (Raise AssertionError, w') /\
        suspend_capture self w' = (Raise AttributeError, w')).
Proof.
  split.
  - intros Hf. unfold stop_capturing, bind, get_capture. now rewrite Hf.
  - intros m bo be Hf Ho He Hsep Hnm.
    eexists. split; [apply (stop_capturing_closes self w m bo be Hf Ho He Hsep)|].
    assert (Hf' : forall s h,
               heap (World s (<[self := Facade None]> h)) !! self
               = Some (Facade None))
      by (intros; simpl; apply lookup_insert_eq).
    split; [apply Hf'|]. split; [|split; [|split; [|split]]].
    + split; simpl.
      * rewrite lookup_insert_ne by congruence. apply lookup_insert_eq.
      * apply lookup_insert_eq.
    + eexists _, _. simpl.
      split; [rewrite !lookup_insert_ne by congruence; apply lookup_insert_eq|].
      split; [rewrite lookup_insert_ne by congruence; apply lookup_insert_eq|].
      now split.
    + intros l H1 H2 H3. simpl.
      now rewrite !lookup_insert_ne by congruence.
    + apply read_capture_idle, Hf'.
    + apply suspend_capture_idle, Hf'.
Qed.

Lemma X3_witness :
  stop_capturing io_capture w_idle = (Ok tt, w_idle) /\
  exists w' : world,
    stop_capturing io_capture w_printed = (Ok tt, w') /\
    heap w' !! io_capture = Some (Facade None) /\
    suspended w' manager0 /\
    (exists bo' be' : StringIO.t,
        heap w' !! tmp_io (_out manager0) = Some (Buffer bo') /\
        heap w' !! tmp_io (_err manager0) = Some (Buffer be') /\
        StringIO.closed bo' = true /\ StringIO.closed be' = true) /\
    (forall l : loc,
        l ≠ io_capture -> l ≠ tmp_io (_out manager0) ->
        l ≠ tmp_io (_err manager0) ->
        heap w' !! l = heap w_printed !! l) /\
    read_capture io_capture w' = (Raise AssertionError, w') /\
    suspend_capture io_capture w' = (Raise AttributeError, w').
Proof.
  split.
  - apply (proj1 (X3_stop_capturing io_capture w_idle)).
    vm_compute; reflexivity.
  - apply (proj2 (X3_stop_capturing io_capture w_printed) manager0
             (StringIO.mk "hello" 5 false) (StringIO.mk "oops" 4 false));
      vm_compute; first [reflexivity | lia | (intros E; discriminate E)].
Defined.

(** ** After [finish], and reads that fail *)

Section closing.

(** A [StringIO] method that raises leaves the world as it was. *)
Lemma on_buffer_closed {A} (l : loc) (f : StringIO.t -> result A * StringIO.t)
    (b : StringIO.t) (e : exn) (w : world) :
  heap w !! l = Some (Buffer b) ->
  f b = (Raise e, b) ->
  on_buffer l f w = (Raise e, w).
Proof.
  intros Hl Hf. unfold on_buffer. rewrite Hl, Hf.
  f_equal. destruct w as [s h]. simpl in *. f_equal.
  now apply insert_id.
Qed.

Lemma snap_closed (c : StdCapture) (b : StringIO.t) (w : world) :
  heap w !! tmp_io c = Some (Buffer b) ->
  StringIO.closed b = true ->
  StdCapture_snap c w = (Raise ValueError, w).
Proof.
  intros Hl Hc. unfold StdCapture_snap, bind.
  rewrite (on_buffer_closed _ _ b ValueError w Hl); [reflexivity|].
  unfold StringIO.seek. now rewrite Hc.
Qed.

(** The world [finish] leaves. *)
Lemma finish_spec (c : StdCapture) (b : StringIO.t) (w : world) :
  heap w !! tmp_io c = Some (Buffer b) ->
  StdCapture_finish c w
  = (Ok tt,
     World (<[name c := _old c]> (sys w))
           (<[tmp_io c := Buffer (StringIO.mk (StringIO.value b) (StringIO.pos b) true)]>
              (heap w))).
Proof.
  intros Hl. unfold StdCapture_finish, bind, setattr_sys, on_buffer.
  simpl. now rewrite Hl.
Qed.

End closing.

(** X4.  [finish] is terminal for reads and harmless to repeat: once a
    redirector is finished its channel names the real stream, [snap]
    fails with [ValueError] (the buffer is closed) and changes nothing,
    and a second [finish] succeeds and changes nothing. *)
Theorem X4_finish_is_terminal (c : StdCapture) (b : StringIO.t) (w : world) :
  heap w !! tmp_io c = Some (Buffer b) ->
  exists w1 : world,
    StdCapture_finish c w = (Ok tt, w1) /\
    sys w1 !! name c = Some (_old c) /\
    StdCapture_snap c w1 = (Raise ValueError, w1) /\
    StdCapture_finish c w1 = (Ok tt, w1).
Proof.
  intros Hl. eexists. split; [apply (finish_spec c b w Hl)|].
  split; [simpl; apply lookup_insert_eq|]. split.
  - eapply snap_closed; [simpl; apply lookup_insert_eq | reflexivity].
  - erewrite finish_spec by (simpl; apply lookup_insert_eq).
    simpl. now rewrite !insert_insert_eq.
Qed.

Lemma X4_witness :
  exists w1 : world,
    StdCapture_finish out0 w_printed = (Ok tt, w1) /\
    sys w1 !! name out0 = Some (_old out0) /\
    StdCapture_snap out0 w1 = (Raise ValueError, w1) /\
    StdCapture_finish out0 w1 = (Ok tt, w1).
Proof.
  apply (X4_finish_is_terminal out0 (StringIO.mk "hello" 5 false) w_printed).
  vm_compute; reflexivity.
Defined.

(** X5.  [IOManager.read] is not atomic.  When the output buffer is open
    and the error buffer has been closed, the read fails with
    [ValueError] after the output buffer was drained: its text is neither
    returned nor kept.  When the output buffer is the closed one the
    read fails at once and nothing is drained. *)
Theorem X5_read_is_not_atomic (m : IOManager) (w : world) :
  (forall (vo : string) (po : nat) (be : StringIO.t),
      heap w !! tmp_io (_out m) = Some (Buffer (StringIO.mk vo po false)) ->
      heap w !! tmp_io (_err m) = Some (Buffer be) ->
      StringIO.closed be = true ->
      tmp_io (_out m) ≠ tmp_io (_err m) ->
      exists w' : world,
        IOManager_read m w = (Raise ValueError, w') /\
        heap w' !! tmp_io (_out m) = Some (Buffer (StringIO.mk "" 0 false)) /\
        heap w' !! tmp_io (_err m) = Some (Buffer be)) /\
  (forall bo : StringIO.t,
      heap w !! tmp_io (_out m) = Some (Buffer bo) ->
      StringIO.closed bo = true ->
      IOManager_read m w = (Raise ValueError, w)).
Proof.
  split.
  - intros vo po be Ho He Hc Hsep.
    eexists. split; [|split].
    + unfold IOManager_read, bind at 1.
      rewrite (snap_spec _ _ _ _ Ho). unfold bind.
      erewrite snap_closed; [reflexivity | | exact Hc].
      simpl. rewrite lookup_insert_ne by exact Hsep. exact He.
    + simpl. apply lookup_insert_eq.
    + simpl. rewrite lookup_insert_ne by exact Hsep. exact He.
  - intros bo Ho Hc. unfold IOManager_read, bind.
    now rewrite (snap_closed _ bo w Ho Hc).
Qed.

Lemma X5_witness :
  exists w' : world,
    IOManager_read manager0
      (snd (on_buffer (tmp_io err0) StringIO.close w_printed))
    = (Raise ValueError, w') /\
    heap w' !! tmp_io (_out manager0) = Some (Buffer (StringIO.mk "" 0 false)) /\
    heap w' !! tmp_io (_err manager0) = Some (Buffer (StringIO.mk "oops" 4 true)).
Proof.
  apply (proj1 (X5_read_is_not_atomic manager0
                  (snd (on_buffer (tmp_io err0) StringIO.close w_printed)))
           "hello" 5%nat (StringIO.mk "oops" 4 true));
    vm_compute; first [reflexivity | lia].
Defined.

(** X6.  A scope entered with no session always ends in
    [AttributeError]: [resume_capture] is a no-op, the unit of work runs
    on whatever the channels name, and the unguarded [suspend_capture] in
    the [finally] clause fails -- also when the unit of work itself
    raised, whose exception is then replaced.  The world is as the unit
    of work left it, so the sink is not written. *)
Theorem X6_scope_without_session
    (self out_buf : loc) (body : M unit) (w w1 : world) (r : result unit) :
  heap w !! self = Some (Facade None) ->
  body w = (r, w1) ->
  heap w1 !! self = Some (Facade None) ->
  capture self out_buf body w = (Raise AttributeError, w1).
Proof.
  intros Hf Hbody Hf1. unfold capture, bind at 1.
  rewrite (resume_capture_idle self w Hf).
  unfold bind, try_finally. rewrite Hbody.
  now rewrite (suspend_capture_idle self w1 Hf1).
Qed.

Lemma X6_witness :
  capture io_capture result_dict (writes_then_fail [to_stdout "x"] 3) w_idle
  = (Raise AttributeError,
     snd (writes_then_fail [to_stdout "x"] 3 w_idle)) /\
  capture io_capture result_dict (run_writes [to_stdout "x"]) w_idle
  = (Raise AttributeError, snd (run_writes [to_stdout "x"] w_idle)).
Proof.
  split.
  - apply (X6_scope_without_session io_capture result_dict
             (writes_then_fail [to_stdout "x"] 3) w_idle
             (snd (writes_then_fail [to_stdout "x"] 3 w_idle))
             (Raise (Failure 3)));
      vm_compute; reflexivity.
  - apply (X6_scope_without_session io_capture result_dict
             (run_writes [to_stdout "x"]) w_idle
             (snd (run_writes [to_stdout "x"] w_idle)) (Ok tt));
      vm_compute; reflexivity.
Defined.

(** X7.  What a scope captured before its unit of work failed is not
    lost: the scope raises the failure, the sink is as before, and the
    text written so far stays in the buffers behind what they held at
    entry, so that the next [read_capture] answers it. *)
Theorem X7_failed_scope_keeps_text
    (self out_buf : loc) (m : IOManager) (w : world)
    (vo ve : string) (items : gmap string pyval)
    (ws : list write_cmd) (tag : nat) :
  session w self m vo ve ->
  heap w !! out_buf = Some (Dict items) ->
  exists w' : world,
    capture self out_buf (writes_then_fail ws tag) w = (Raise (Failure tag), w') /\
    heap w' !! out_buf = Some (Dict items) /\
    suspended w' m /\
    read_capture self w'
    = (Ok (vo +:+ out_text ws, ve +:+ err_text ws), drained m w').
Proof.
  intros Hs Hd.
  assert (Hs0 : session (resumed m w) self m vo ve)
    by (now apply session_heap with (w := w)).
  pose proof (session_buffered_resumed self m w vo ve Hs) as Hb0.
  destruct (run_writes_buffered self m ws (resumed m w) vo ve Hs0 Hb0)
    as [w1 [Hrun [Hsys Hs1]]].
  pose proof (keeps_run_writes out_buf ws (resumed m w) items Hd) as Hd1.
  rewrite Hrun in Hd1. simpl in Hd1.
  pose proof Hs as [Hf _ _ _ _ _].
  pose proof Hs1 as [Hf1 Hno Hne Ho1 He1 Hsep].
  exists (halted m w1). split; [|split; [|split]].
  - unfold capture, bind at 1.
    rewrite (resume_capture_spec self m w Hf).
    unfold bind at 1. unfold try_finally, writes_then_fail, bind at 1.
    rewrite Hrun. unfold raise.
    now rewrite (suspend_capture_spec self m w1 Hf1).
  - exact Hd1.
  - apply (session_suspended_halted self m w1 _ _ Hs1).
  - now apply read_capture_spec
      with (po := String.length (vo +:+ out_text ws))
           (pe := String.length (ve +:+ err_text ws)).
Qed.

Lemma X7_witness :
  exists w' : world,
    capture io_capture used_dict
      (writes_then_fail [to_stdout " more"; to_stderr "!"] 7) w_printed
    = (Raise (Failure 7), w') /\
    heap w' !! used_dict = Some (Dict used_items) /\
    suspended w' manager0 /\
    read_capture io_capture w'
    = (Ok ("hello" +:+ out_text [to_stdout " more"; to_stderr "!"],
           "oops" +:+ err_text [to_stdout " more"; to_stderr "!"]),
       drained manager0 w').
Proof.
  apply (X7_failed_scope_keeps_text io_capture used_dict manager0 w_printed
           "hello" "oops" used_items [to_stdout " more"; to_stderr "!"] 7).
  - constructor; vm_compute; first [reflexivity | lia].
  - vm_compute; reflexivity.
Defined.

(** ** What no call touches *)

Section sys_frame.

Variable self : loc.

Lemma sys_framed_ret {A} (a : A) : sys_framed self (ret a).
Proof. intros w _ k _ _. reflexivity. Qed.

Lemma sys_framed_raise {A} (e : exn) : sys_framed self (@raise A e).
Proof. intros w _ k _ _. reflexivity. Qed.

Lemma sys_framed_bind {A B} (c : M A) (k : A -> M B) :
  preserves self c -> sys_framed self c ->
  (forall a, sys_framed self (k a)) ->
  sys_framed self (bind c k).
Proof.
  intros Hp Hc Hk w Hwf x H1 H2. unfold bind.
  specialize (Hp w Hwf). specialize (Hc w Hwf x H1 H2).
  destruct (c w) as [[a|e] w1]; simpl in *; [|exact Hc].
  rewrite <- Hc. now apply Hk.
Qed.

Lemma sys_framed_try_finally {A} (body : M A) (fin : M unit) :
  preserves self body -> sys_framed self body -> sys_framed self fin ->
  sys_framed self (try_finally body fin).
Proof.
  intros Hp Hb Hf w Hwf x H1 H2. unfold try_finally.
  specialize (Hp w Hwf). specialize (Hb w Hwf x H1 H2).
  destruct (body w) as [r w1]. simpl in *.
  specialize (Hf w1 Hp x H1 H2).
  destruct (fin w1) as [[u|e] w2]; simpl in *; congruence.
Qed.

(** Writes and item assignments never assign to [sys]. *)
Lemma run_write_sys (c : write_cmd) (w : world) :
  sys (snd (run_write c w)) = sys w.
Proof.
  destruct c as [s|s]; simpl;
    unfold sys_write, bind, getattr_sys, stream_write;
    (destruct (sys w !! _) as [l|]; [|reflexivity]);
    (destruct (heap w !! l) as [[d|b|?|?]|]; try reflexivity);
    destruct (StringIO.write s b) as [[n|e] b']; reflexivity.
Qed.

Lemma setitem_sys (d : loc) (k : string) (v : pyval) (w : world) :
  sys (snd (setitem d k v w)) = sys w.
Proof.
  unfold setitem. now destruct (heap w !! d) as [[?|?|?|?]|].
Qed.

Lemma sys_framed_run_write (c : write_cmd) : sys_framed self (run_write c).
Proof. intros w _ k _ _. now rewrite run_write_sys. Qed.

Lemma sys_framed_setitem (d : loc) (k : string) (v : pyval) :
  sys_framed self (setitem d k v).
Proof. intros w _ x _ _. now rewrite setitem_sys. Qed.

Lemma sys_framed_resume_capture : sys_framed self (resume_capture self).
Proof.
  intros w [[m|] [Hf Hc]] k H1 H2.
  - destruct Hc as [[vo [ve [_ Hno Hne _ _ _]]] _].
    rewrite (resume_capture_spec self m w Hf). simpl.
    rewrite Hno, Hne. now rewrite !lookup_insert_ne by congruence.
  - now rewrite (resume_capture_idle self w Hf).
Qed.

Lemma sys_framed_suspend_capture : sys_framed self (suspend_capture self).
Proof.
  intros w [[m|] [Hf Hc]] k H1 H2.
  - destruct Hc as [[vo [ve [_ Hno Hne _ _ _]]] _].
    rewrite (suspend_capture_spec self m w Hf). simpl.
    rewrite Hno, Hne. now rewrite !lookup_insert_ne by congruence.
  - now rewrite (suspend_capture_idle self w Hf).
Qed.

Lemma sys_framed_read_capture : sys_framed self (read_capture self).
Proof.
  intros w [[m|] [Hf Hc]] k H1 H2.
  - destruct Hc as [[vo [ve [_ _ _ Ho He Hsep]]] _].
    now rewrite (read_capture_spec self m w _ _ _ _ Ho He Hsep Hf).
  - now rewrite (read_capture_idle self w Hf).
Qed.

Lemma sys_framed_start_capturing : sys_framed self (start_capturing self).
Proof.
  intros w [[m|] [Hf Hc]] k H1 H2.
  - now rewrite (start_capturing_active self w m Hf).
  - destruct Hc as [[lo [Hlo _]] [le [Hle _]]].
    rewrite (start_capturing_spec self w lo le Hf Hlo Hle). simpl.
    now rewrite !lookup_insert_ne by congruence.
Qed.

Lemma sys_framed_stop_capturing : sys_framed self (stop_capturing self).
Proof.
  intros w [[m|] [Hf Hc]] k H1 H2.
  - destruct Hc as [[vo [ve Hs]] _].
    rewrite (stop_capturing_spec self w m vo ve Hs). simpl.
    destruct Hs as [_ Hno Hne _ _ _]. rewrite Hno, Hne.
    now rewrite !lookup_insert_ne by congruence.
  - unfold stop_capturing, bind, get_capture. now rewrite Hf.
Qed.

Lemma sys_framed_run_writes (ws : list write_cmd) :
  sys_framed self (run_writes ws).
Proof.
  induction ws as [|c ws IH]; simpl; [apply sys_framed_ret|].
  apply sys_framed_bind;
    [apply preserves_run_write | apply sys_framed_run_write | intros _; exact IH].
Qed.

Lemma sys_framed_writes_then_fail (ws : list write_cmd) (tag : nat) :
  sys_framed self (writes_then_fail ws tag).
Proof.
  unfold writes_then_fail.
  apply sys_framed_bind;
    [apply preserves_run_writes | apply sys_framed_run_writes
    | intros _; apply sys_framed_raise].
Qed.

Lemma sys_framed_capture (out_buf : loc) (body : M unit) :
  preserves self body -> sys_framed self body ->
  sys_framed self (capture self out_buf body).
Proof.
  intros Hp Hb. unfold capture.
  apply sys_framed_bind;
    [apply preserves_resume_capture | apply sys_framed_resume_capture | intros _].
  apply sys_framed_bind;
    [apply preserves_try_finally; [exact Hp | apply preserves_suspend_capture]
    | apply sys_framed_try_finally;
      [exact Hp | exact Hb | apply sys_framed_suspend_capture]
    | intros _].
  apply sys_framed_bind;
    [apply preserves_read_capture | apply sys_framed_read_capture | intros r].
  apply sys_framed_bind;
    [apply preserves_setitem | apply sys_framed_setitem | intros _].
  apply sys_framed_setitem.
Qed.

Lemma sys_framed_run_call (c : call) : sys_framed self (run_call self c).
Proof.
  destruct c as [| | | | |c|out_buf ws [tag|]]; simpl.
  - apply sys_framed_bind;
      [apply preserves_start_capturing | apply sys_framed_start_capturing
      | intros; apply sys_framed_ret].
  - apply sys_framed_bind;
      [apply preserves_stop_capturing | apply sys_framed_stop_capturing
      | intros; apply sys_framed_ret].
  - apply sys_framed_bind;
      [apply preserves_resume_capture | apply sys_framed_resume_capture
      | intros; apply sys_framed_ret].
  - apply sys_framed_bind;
      [apply preserves_suspend_capture | apply sys_framed_suspend_capture
      | intros; apply sys_framed_ret].
  - apply sys_framed_bind;
      [apply preserves_read_capture | apply sys_framed_read_capture
      | intros; apply sys_framed_ret].
  - apply sys_framed_bind;
      [apply preserves_run_write | apply sys_framed_run_write
      | intros; apply sys_framed_ret].
  - apply sys_framed_bind;
      [apply preserves_capture, preserves_writes_then_fail
      | apply sys_framed_capture;
        [apply preserves_writes_then_fail | apply sys_framed_writes_then_fail]
      | intros; apply sys_framed_ret].
  - apply sys_framed_bind;
      [apply preserves_capture, preserves_run_writes
      | apply sys_framed_capture;
        [apply preserves_run_writes | apply sys_framed_run_writes]
      | intros; apply sys_framed_ret].
Qed.

Lemma run_calls_sys_frame (cs : list call) :
  forall w : world,
    well_formed self w ->
    forall k : string,
      k ≠ "stdout" -> k ≠ "stderr" ->
      sys (snd (run_calls self cs w)) !! k = sys w !! k.
Proof.
  induction cs as [|c cs IH]; intros w Hwf k H1 H2; simpl; [reflexivity|].
  pose proof (preserves_run_call self c w Hwf) as Hp.
  pose proof (sys_framed_run_call c w Hwf k H1 H2) as Hs.
  destruct (run_call self c w) as [r w1]. simpl in Hp, Hs.
  specialize (IH w1 Hp k H1 H2).
  destruct (run_calls self cs w1) as [rs w2]. simpl in *. congruence.
Qed.

End sys_frame.

(** X8.  The code redirects the two output channels and nothing else:
    from a well-formed world, whatever the caller does with the facade,
    scopes and prints, every attribute of [sys] other than "stdout" and
    "stderr" -- "stdin", which [sys_io_name] lists, included -- keeps the
    value it had. *)
Theorem X8_only_the_two_channels
    (self : loc) (cs : list call) (w : world) (k : string) :
  well_formed self w ->
  k ≠ "stdout" -> k ≠ "stderr" ->
  sys (snd (run_calls self cs w)) !! k = sys w !! k.
Proof. intros Hwf H1 H2. now apply run_calls_sys_frame. Qed.

Lemma X8_witness :
  sys (snd (run_calls io_capture
              [CStart; CWrite (to_stdout "a"); CScope result_dict [to_stderr "b"] None;
               CStop]
              w_idle)) !! "stdin"
  = sys w_idle !! "stdin".
Proof.
  apply (X8_only_the_two_channels io_capture
           [CStart; CWrite (to_stdout "a"); CScope result_dict [to_stderr "b"] None;
            CStop]
           w_idle "stdin").
  - exact w_idle_well_formed.
  - intros E; discriminate E.
  - intros E; discriminate E.
Defined.

(** ** A session lasts until [stop_capturing] *)

Create HintDb facade.

Section keeping_the_session.

Variable self : loc.

Lemma kf_ret {A} (a : A) : keeps_facade self (ret a).
Proof. intros w f Hf. exact Hf. Qed.

Lemma kf_raise {A} (e : exn) : keeps_facade self (@raise A e).
Proof. intros w f Hf. exact Hf. Qed.

Lemma kf_bind {A B} (c : M A) (k : A -> M B) :
  keeps_facade self c -> (forall a, keeps_facade self (k a)) ->
  keeps_facade self (bind c k).
Proof.
  intros Hc Hk w f Hf. unfold bind. specialize (Hc w f Hf).
  destruct (c w) as [[a|e] w1]; simpl in *; [now apply Hk | exact Hc].
Qed.

Lemma kf_try_finally {A} (body : M A) (fin : M unit) :
  keeps_facade self body -> keeps_facade self fin ->
  keeps_facade self (try_finally body fin).
Proof.
  intros Hb Hfin w f Hf. unfold try_finally. specialize (Hb w f Hf).
  destruct (body w) as [r w1]. simpl in Hb. specialize (Hfin w1 f Hb).
  destruct (fin w1) as [[u|e] w2]; exact Hfin.
Qed.

Lemma kf_assert (c : bool) : keeps_facade self (assert c).
Proof. destruct c; intros w f Hf; exact Hf. Qed.

Lemma kf_getattr_sys (nm : string) : keeps_facade self (getattr_sys nm).
Proof. intros w f Hf. unfold getattr_sys. now destruct (sys w !! nm). Qed.

Lemma kf_setattr_sys (nm : string) (l : loc) : keeps_facade self (setattr_sys nm l).
Proof. intros w f Hf. exact Hf. Qed.

Lemma kf_get_capture (l : loc) : keeps_facade self (get_capture l).
Proof.
  intros w f Hf. unfold get_capture.
  now destruct (heap w !! l) as [[?|?|?|?]|].
Qed.

Lemma kf_on_buffer {A} (l : loc) (g : StringIO.t -> result A * StringIO.t) :
  keeps_facade self (on_buffer l g).
Proof.
  intros w f Hf. unfold on_buffer.
  destruct (heap w !! l) as [[?|b|?|?]|] eqn:Hl; try exact Hf.
  destruct (g b) as [r b']. simpl.
  rewrite lookup_insert_ne by congruence. exact Hf.
Qed.

Lemma kf_stream_write (l : loc) (s : string) : keeps_facade self (stream_write l s).
Proof.
  intros w f Hf. unfold stream_write.
  destruct (heap w !! l) as [[?|b|?|?]|] eqn:Hl; try exact Hf.
  - simpl. rewrite lookup_insert_ne by congruence. exact Hf.
  - destruct (StringIO.write s b) as [r b']. simpl.
    rewrite lookup_insert_ne by congruence. exact Hf.
Qed.

Lemma kf_setitem (d : loc) (k : string) (v : pyval) : keeps_facade self (setitem d k v).
Proof.
  intros w f Hf. unfold setitem.
  destruct (heap w !! d) as [[?|?|items|?]|] eqn:Hd; try exact Hf.
  simpl. rewrite lookup_insert_ne by congruence. exact Hf.
Qed.

Hint Resolve kf_ret kf_raise kf_assert kf_getattr_sys kf_setattr_sys
  kf_get_capture kf_on_buffer kf_stream_write kf_setitem kf_try_finally
  : facade.

Ltac kf :=
  repeat first
    [ apply kf_bind; [|intros]
    | match goal with
      | |- keeps_facade _ (match ?x with _ => _ end) => destruct x
      end ];
  auto with facade.

Lemma kf_resume_capture : keeps_facade self (resume_capture self).
Proof. unfold resume_capture, IOManager_resume, StdCapture_resume. kf. Qed.

Lemma kf_suspend_capture : keeps_facade self (suspend_capture self).
Proof. unfold suspend_capture, IOManager_suspend, StdCapture_suspend. kf. Qed.

Lemma kf_read_capture : keeps_facade self (read_capture self).
Proof. unfold read_capture, IOManager_read, StdCapture_snap. kf. Qed.

Lemma kf_run_write (c : write_cmd) : keeps_facade self (run_write c).
Proof. destruct c; unfold run_write, sys_write; kf. Qed.

Lemma kf_run_writes (ws : list write_cmd) : keeps_facade self (run_writes ws).
Proof.
  induction ws as [|c ws IH]; simpl; [apply kf_ret|].
  apply kf_bind; [apply kf_run_write | intros _; exact IH].
Qed.

Lemma kf_writes_then_fail (ws : list write_cmd) (tag : nat) :
  keeps_facade self (writes_then_fail ws tag).
Proof.
  unfold writes_then_fail.
  apply kf_bind; [apply kf_run_writes | intros _; apply kf_raise].
Qed.

Lemma kf_capture (out_buf : loc) (body : M unit) :
  keeps_facade self body -> keeps_facade self (capture self out_buf body).
Proof.
  intros Hb. unfold capture.
  apply kf_bind; [apply kf_resume_capture | intros _].
  apply kf_bind;
    [apply kf_try_finally; [exact Hb | apply kf_suspend_capture] | intros _].
  apply kf_bind; [apply kf_read_capture | intros r].
  apply kf_bind; [apply kf_setitem | intros _; apply kf_setitem].
Qed.

(** Only [stop_capturing] ends a session, and nothing replaces one. *)
Lemma run_call_keeps_manager (c : call) (m : IOManager) (w : world) :
  c ≠ CStop ->
  heap w !! self = Some (Facade (Some m)) ->
  heap (snd (run_call self c w)) !! self = Some (Facade (Some m)).
Proof.
  intros Hc Hf.
  destruct c as [| | | | |c|out_buf ws [tag|]]; simpl.
  - unfold bind. now rewrite (start_capturing_active self w m Hf).
  - contradiction.
  - apply kf_bind; [apply kf_resume_capture | intros; apply kf_ret | exact Hf].
  - apply kf_bind; [apply kf_suspend_capture | intros; apply kf_ret | exact Hf].
  - apply kf_bind; [apply kf_read_capture | intros; apply kf_ret | exact Hf].
  - apply kf_bind; [apply kf_run_write | intros; apply kf_ret | exact Hf].
  - apply kf_bind;
      [apply kf_capture, kf_writes_then_fail | intros; apply kf_ret | exact Hf].
  - apply kf_bind;
      [apply kf_capture, kf_run_writes | intros; apply kf_ret | exact Hf].
Qed.

Lemma run_calls_keep_manager (cs : list call) (m : IOManager) :
  forall w : world,
    no_stop cs = true ->
    heap w !! self = Some (Facade (Some m)) ->
    heap (snd (run_calls self cs w)) !! self = Some (Facade (Some m)).
Proof.
  induction cs as [|c cs IH]; intros w Hns Hf; simpl; [exact Hf|].
  assert (Hc : c ≠ CStop /\ no_stop cs = true)
    by (destruct c; simpl in Hns; (split; [discriminate | exact Hns])
                                  || discriminate Hns).
  destruct Hc as [Hc Hns'].
  pose proof (run_call_keeps_manager c m w Hc Hf) as H1.
  destruct (run_call self c w) as [r w1]. simpl in H1.
  specialize (IH w1 Hns' H1).
  destruct (run_calls self cs w1) as [rs w2]. exact IH.
Qed.

Lemma run_calls_app (cs1 cs2 : list call) :
  forall w : world,
    snd (run_calls self (cs1 ++ cs2) w)
    = snd (run_calls self cs2 (snd (run_calls self cs1 w))).
Proof.
  induction cs1 as [|c cs1 IH]; intros w; simpl; [reflexivity|].
  destruct (run_call self c w) as [r w1].
  specialize (IH w1).
  destruct (run_calls self (cs1 ++ cs2) w1) as [rs w2].
  destruct (run_calls self cs1 w1) as [rs1 w3]. simpl in *.
  exact IH.
Qed.

End keeping_the_session.

Section round_trip.

Variable self : loc.

Lemma run_calls_cons (c : call) (cs : list call) (w : world) :
  snd (run_calls self (c :: cs) w)
  = snd (run_calls self cs (snd (run_call self c w))).
Proof.
  simpl. destruct (run_call self c w) as [r w1]. simpl.
  now destruct (run_calls self cs w1).
Qed.

(** A session started on the channels [lo] and [le], used in any way
    that does not stop it, and then stopped: [sys] is as at the start. *)
Lemma start_use_stop (cs : list call) (w : world) (lo le : loc) :
  well_formed self w ->
  heap w !! self = Some (Facade None) ->
  sys w !! "stdout" = Some lo ->
  sys w !! "stderr" = Some le ->
  no_stop cs = true ->
  sys (snd (run_calls self (CStart :: cs ++ [CStop]) w)) = sys w /\
  heap (snd (run_calls self (CStart :: cs ++ [CStop]) w)) !! self
  = Some (Facade None).
Proof.
  intros Hwf Hf Hlo Hle Hns.
  rewrite run_calls_cons, run_calls_app.
  assert (H1 : snd (run_call self CStart w) = started self w lo le).
  { simpl. unfold bind. now rewrite (start_capturing_spec self w lo le Hf Hlo Hle). }
  rewrite H1.
  assert (Hwf1 : well_formed self (started self w lo le)).
  { rewrite <- H1. apply preserves_run_call, Hwf. }
  destruct (started_session self w lo le Hf) as [[Hf1 _ _ _ _ _] _].
  set (w2 := snd (run_calls self cs (started self w lo le))).
  assert (Hwf2 : well_formed self w2) by (now apply run_calls_well_formed).
  assert (Hf2 : heap w2 !! self = Some (Facade (Some (new_manager w lo le))))
    by (now apply run_calls_keep_manager).
  assert (Hsys2 : forall k, k ≠ "stdout" -> k ≠ "stderr" ->
                            sys w2 !! k = sys w !! k).
  { intros k Hk1 Hk2. unfold w2.
    rewrite (run_calls_sys_frame self cs _ Hwf1 k Hk1 Hk2). simpl.
    now rewrite !lookup_insert_ne by congruence. }
  destruct (well_formed_session self w2 _ Hwf2 Hf2) as [vo [ve Hs2]].
  rewrite run_calls_cons. simpl run_calls. simpl run_call. unfold bind.
  rewrite (stop_capturing_spec self w2 _ vo ve Hs2). simpl.
  split; [|apply lookup_insert_eq].
  apply map_eq. intros k.
  destruct (decide (k = "stderr")) as [->|Hk2];
    [now rewrite lookup_insert_eq|].
  rewrite lookup_insert_ne by congruence.
  destruct (decide (k = "stdout")) as [->|Hk1];
    [now rewrite lookup_insert_eq|].
  rewrite lookup_insert_ne by congruence.
  now apply Hsys2.
Qed.

End round_trip.

(** X9.  Starting restores on stopping.  From a well-formed world with
    no session, [start_capturing], then any calls, scopes and prints that
    do not stop the session (a further [start_capturing] just fails),
    then [stop_capturing]: every attribute of [sys] has the value it had
    before the start -- the channels name the same streams again -- and
    the facade has no session. *)
Theorem X9_start_stop_round_trip (self : loc) (cs : list call) (w : world) :
  well_formed self w ->
  heap w !! self = Some (Facade None) ->
  no_stop cs = true ->
  sys (snd (run_calls self (CStart :: cs ++ [CStop]) w)) = sys w /\
  heap (snd (run_calls self (CStart :: cs ++ [CStop]) w)) !! self
  = Some (Facade None).
Proof.
  intros Hwf Hf Hns.
  pose proof Hwf as [c [Hc Hch]].
  rewrite Hf in Hc. injection Hc as <-.
  destruct Hch as [[lo [Hlo _]] [le [Hle _]]].
  now apply start_use_stop with (lo := lo) (le := le).
Qed.

Lemma X9_witness :
  sys (snd (run_calls io_capture
              (CStart :: [CWrite (to_stdout "a"); CSuspend; CStart; CRead;
                          CScope result_dict [to_stderr "b"] (Some 1%nat)]
                 ++ [CStop])
              w_idle))
  = sys w_idle /\
  heap (snd (run_calls io_capture
               (CStart :: [CWrite (to_stdout "a"); CSuspend; CStart; CRead;
                           CScope result_dict [to_stderr "b"] (Some 1%nat)]
                  ++ [CStop])
               w_idle)) !! io_capture
  = Some (Facade None).
Proof.
  apply (X9_start_stop_round_trip io_capture
           [CWrite (to_stdout "a"); CSuspend; CStart; CRead;
            CScope result_dict [to_stderr "b"] (Some 1%nat)]
           w_idle).
  - exact w_idle_well_formed.
  - vm_compute; reflexivity.
  - reflexivity.
Defined.

(** X10.  The redirection state never goes wrong.  From a well-formed
    world, after any sequence of calls, scopes and prints, failing ones
    included, the world is well formed again: with no session both
    channels name host streams; with a session its two buffers are
    distinct, open and positioned at their end, the real targets are host
    streams, and the two channels are redirected together -- both name
    their buffer or both name their real stream, never one of each.  So a
    print on either channel always succeeds. *)
Theorem X10_calls_keep_well_formed (self : loc) (cs : list call) (w : world) :
  well_formed self w ->
  well_formed self (snd (run_calls self cs w)) /\
  forall c : write_cmd,
    fst (run_write c (snd (run_calls self cs w))) = Ok tt.
Proof.
  intros Hwf.
  pose proof (run_calls_well_formed self cs w Hwf) as H.
  split; [exact H|].
  intros c. now apply run_write_well_formed with (self := self).
Qed.

Lemma X10_witness :
  well_formed io_capture
    (snd (run_calls io_capture
            [CSuspend; CStart; CScope used_dict [to_stdout "a"] (Some 2%nat); CRead]
            w_idle)) /\
  forall c : write_cmd,
    fst (run_write c
           (snd (run_calls io_capture
                   [CSuspend; CStart; CScope used_dict [to_stdout "a"] (Some 2%nat);
                    CRead]
                   w_idle)))
    = Ok tt.
Proof.
  apply (X10_calls_keep_well_formed io_capture
           [CSuspend; CStart; CScope used_dict [to_stdout "a"] (Some 2%nat); CRead]
           w_idle).
  exact w_idle_well_formed.
Defined.

(** ** The state machine the code implements *)

Section machine_helpers.

Variable self : loc.

Lemma hdict_unbound (h : gmap loc obj) (l : loc) : h !! l = None -> hdict h l = None.
Proof. intros H. unfold hdict. now rewrite H. Qed.

Lemma hdict_other (h : gmap loc obj) (l : loc) (o : obj) :
  h !! l = Some o -> (forall i, o ≠ Dict i) -> hdict h l = None.
Proof.
  intros H Ho. unfold hdict. rewrite H.
  destruct o as [?|?|i|?]; try reflexivity. now destruct (Ho i).
Qed.

Lemma hdict_dict (h : gmap loc obj) (l : loc) (i : gmap string pyval) :
  h !! l = Some (Dict i) -> hdict h l = Some i.
Proof. intros H. unfold hdict. now rewrite H. Qed.

Lemma hdict_some (h : gmap loc obj) (l : loc) (i : gmap string pyval) :
  hdict h l = Some i -> h !! l = Some (Dict i).
Proof.
  unfold hdict. destruct (h !! l) as [[?|?|?|?]|]; try discriminate.
  now intros [= ->].
Qed.

(** Storing something that is no dictionary where no dictionary was. *)
Lemma hdict_insert_other (h : gmap loc obj) (l0 : loc) (o : obj) (l : loc) :
  hdict h l0 = None -> (forall i, o ≠ Dict i) ->
  hdict (<[l0 := o]> h) l = hdict h l.
Proof.
  intros H0 Ho. destruct (decide (l0 = l)) as [<-|Hne].
  - rewrite H0. apply hdict_other with (o := o); [apply lookup_insert_eq | exact Ho].
  - unfold hdict. now rewrite lookup_insert_ne.
Qed.

Lemma hdict_insert_dict (h : gmap loc obj) (d : loc) (i : gmap string pyval) (l : loc) :
  hdict (<[d := Dict i]> h) l = if decide (d = l) then Some i else hdict h l.
Proof.
  destruct (decide (d = l)) as [<-|Hne].
  - apply hdict_dict, lookup_insert_eq.
  - unfold hdict. now rewrite lookup_insert_ne.
Qed.

Lemma stream_shape_refl (w : world) : stream_shape w w.
Proof. split; [reflexivity | intros l; now left]. Qed.

Lemma stream_shape_trans (w1 w2 w3 : world) :
  stream_shape w1 w2 -> stream_shape w2 w3 -> stream_shape w1 w3.
Proof.
  intros [Hs1 Hh1] [Hs2 Hh2]. split; [congruence|]. intros l.
  destruct (Hh1 l) as [E1|[[d [d' [A B]]]|[b [b' [A B]]]]],
           (Hh2 l) as [E2|[[e [e' [C D]]]|[c [c' [C D]]]]].
  - left. congruence.
  - right. left. exists e, e'. split; congruence.
  - right. right. exists c, c'. split; congruence.
  - right. left. exists d, d'. split; congruence.
  - right. left. exists d, e'. split; congruence.
  - congruence.
  - right. right. exists b, b'. split; congruence.
  - congruence.
  - right. right. exists b, c'. split; congruence.
Qed.

Lemma hdict_streams (w w' : world) (l : loc) :
  stream_shape w w' -> hdict (heap w') l = hdict (heap w) l.
Proof.
  intros [_ Hh]. unfold hdict.
  destruct (Hh l) as [E|[[d [d' [A B]]]|[b [b' [A B]]]]];
    [now rewrite E | now rewrite A, B | now rewrite A, B].
Qed.

Lemma host_stream_streams (w w' : world) (l : loc) :
  stream_shape w w' -> host_stream w l -> host_stream w' l.
Proof.
  intros [_ Hh] [d Hd].
  destruct (Hh l) as [E|[[d1 [d2 [A B]]]|[b [b' [A B]]]]].
  - exists d. now rewrite E.
  - now exists d2.
  - congruence.
Qed.

Lemma host_channel_streams (w w' : world) (nm : string) :
  stream_shape w w' -> host_channel w nm -> host_channel w' nm.
Proof.
  intros Hsh [l [Hl Hh]]. exists l. split.
  - destruct Hsh as [Hs _]. now rewrite Hs.
  - now apply host_stream_streams with (w := w).
Qed.

Lemma facade_streams (w w' : world) (f : option IOManager) :
  stream_shape w w' ->
  heap w !! self = Some (Facade f) -> heap w' !! self = Some (Facade f).
Proof.
  intros [_ Hh] Hf.
  destruct (Hh self) as [E|[[d1 [d2 [A B]]]|[b [b' [A B]]]]];
    [now rewrite E | congruence | congruence].
Qed.

(** A write changes one stream at most, in any world. *)
Lemma run_write_streams (c : write_cmd) (w : world) :
  stream_shape w (snd (run_write c w)).
Proof.
  assert (H : forall nm s, stream_shape w (snd (sys_write nm s w))).
  { intros nm s. unfold sys_write, bind, getattr_sys, stream_write.
    destruct (sys w !! nm) as [l|]; [|apply stream_shape_refl].
    destruct (heap w !! l) as [[d|b|?|?]|] eqn:Hl; try apply stream_shape_refl.
    - simpl. split; [reflexivity|]. intros l'. simpl.
      destruct (decide (l = l')) as [<-|Hne].
      + right. left. exists d, (d +:+ s). now rewrite lookup_insert_eq.
      + left. now rewrite lookup_insert_ne.
    - destruct (StringIO.write s b) as [[n|e] b']; simpl;
        (split; [reflexivity|]); intros l'; simpl;
        (destruct (decide (l = l')) as [<-|Hne];
         [right; right; exists b, b'; now rewrite lookup_insert_eq
         |left; now rewrite lookup_insert_ne]). }
  destruct c; apply H.
Qed.

Lemma run_writes_streams (ws : list write_cmd) :
  forall w : world, stream_shape w (snd (run_writes ws w)).
Proof.
  induction ws as [|c ws IH]; intros w; simpl; [apply stream_shape_refl|].
  unfold bind. pose proof (run_write_streams c w) as H.
  destruct (run_write c w) as [[[]|e] w1]; simpl in *; [|exact H].
  apply stream_shape_trans with (w2 := w1); [exact H | apply IH].
Qed.

Lemma run_writes_single (c : write_cmd) (w : world) :
  run_writes [c] w = run_write c w.
Proof.
  simpl. unfold bind. now destruct (run_write c w) as [[[]|e] w1].
Qed.

(** With the channels on host streams, writes succeed and change host
    streams only. *)
Lemma world_sim_trans (w1 w2 w3 : world) :
  world_sim w1 w2 -> world_sim w2 w3 -> world_sim w1 w3.
Proof.
  intros [Hs1 Hh1] [Hs2 Hh2]. split; [congruence|]. intros l.
  destruct (Hh1 l) as [E1|[d1 [d2 [A B]]]], (Hh2 l) as [E2|[e1 [e2 [C D]]]].
  - left. congruence.
  - right. exists e1, e2. split; congruence.
  - right. exists d1, d2. split; congruence.
  - right. exists d1, e2. split; congruence.
Qed.

Lemma world_sim_deliver (w : world) (l : loc) (d d' : string) :
  heap w !! l = Some (Console d) ->
  world_sim w (World (sys w) (<[l := Console d']> (heap w))).
Proof.
  intros Hl. split; [reflexivity|]. intros l'. simpl.
  destruct (decide (l = l')) as [<-|Hne].
  - right. exists d, d'. now rewrite lookup_insert_eq.
  - left. now rewrite lookup_insert_ne.
Qed.

Lemma host_stream_sim (w w' : world) (l : loc) :
  world_sim w w' -> host_stream w l -> host_stream w' l.
Proof.
  intros [_ Hh] [d Hd].
  destruct (Hh l) as [E|[d1 [d2 [A B]]]].
  - exists d. now rewrite <- E.
  - now exists d2.
Qed.

Lemma host_channel_sim (w w' : world) (nm : string) :
  world_sim w w' -> host_channel w nm -> host_channel w' nm.
Proof.
  intros Hsim [l [Hl Hh]]. exists l. split.
  - destruct Hsim as [Hs _]. now rewrite <- Hs.
  - now apply host_stream_sim with (w := w).
Qed.

Lemma same_shape_sim (w w' : world) : world_sim w w' -> same_shape w w'.
Proof.
  intros [Hs Hh]. split; [now symmetry|]. intros l.
  destruct (Hh l) as [E|[d1 [d2 [A B]]]].
  - left. now symmetry.
  - right. left. now exists d1, d2.
Qed.

Lemma run_writes_off (ws : list write_cmd) :
  forall w : world,
    host_channel w "stdout" -> host_channel w "stderr" ->
    exists w1 : world, run_writes ws w = (Ok tt, w1) /\ world_sim w w1.
Proof.
  induction ws as [|c ws IH]; intros w Ho He.
  - exists w. split; [reflexivity | apply world_sim_refl].
  - assert (Hstep : exists w0, run_write c w = (Ok tt, w0) /\ world_sim w w0).
    { destruct Ho as [lo [Hlo [d_o Hdo]]], He as [le [Hle [de Hde]]].
      destruct c as [s|s]; simpl;
        unfold sys_write, bind, getattr_sys, stream_write;
        [rewrite Hlo, Hdo | rewrite Hle, Hde]; simpl;
        (eexists; split; [reflexivity|]);
        eapply world_sim_deliver; eassumption. }
    destruct Hstep as [w0 [Hrun0 Hsim0]].
    destruct (IH w0) as [w1 [Hrun1 Hsim1]];
      [now apply host_channel_sim with (w := w)
      |now apply host_channel_sim with (w := w)|].
    exists w1. split.
    + simpl. unfold bind. now rewrite Hrun0.
    + now apply world_sim_trans with (w2 := w0).
Qed.

End machine_helpers.

Section machine_steps.

Variable self : loc.

(** Stores that make and unmake no dictionary keep [hdict]. *)
Lemma hdict_store (h h' : gmap loc obj) (l0 : loc) (o : obj) :
  (forall l, hdict h' l = hdict h l) ->
  hdict h l0 = None ->
  (forall i, o ≠ Dict i) ->
  forall l, hdict (<[l0 := o]> h') l = hdict h l.
Proof.
  intros H H0 Ho l. rewrite hdict_insert_other; [apply H | | exact Ho].
  now rewrite H.
Qed.

Lemma refines_idle (ds : gmap loc (gmap string pyval)) (w : world) :
  (forall l, ds !! l = hdict (heap w) l) ->
  heap w !! self = Some (Facade None) ->
  host_channel w "stdout" -> host_channel w "stderr" ->
  refines self (Machine None ds) w.
Proof. intros Hd Hf Ho He. split; [exact Hd | now split]. Qed.

Lemma refines_active (ds : gmap loc (gmap string pyval)) (w : world)
    (m : IOManager) (on : bool) (vo ve : string) :
  (forall l, ds !! l = hdict (heap w) l) ->
  session w self m vo ve -> in_mode on w m ->
  host_stream w (_old (_out m)) -> host_stream w (_old (_err m)) ->
  refines self (Machine (Some (on, vo, ve)) ds) w.
Proof. intros Hd Hs Hm Ho He. split; [exact Hd | now exists m]. Qed.

(** A suspended session has its channels on host streams. *)
Lemma suspended_host_channels (w : world) (m : IOManager) (vo ve : string) :
  session w self m vo ve -> suspended w m ->
  host_stream w (_old (_out m)) -> host_stream w (_old (_err m)) ->
  host_channel w "stdout" /\ host_channel w "stderr".
Proof.
  intros [_ Hno Hne _ _ _] [Hso Hse] Hro Hre.
  rewrite Hno in Hso. rewrite Hne in Hse.
  split; [now exists (_old (_out m)) | now exists (_old (_err m))].
Qed.

Section in_a_session.

Variables (ds : gmap loc (gmap string pyval)) (w : world) (m : IOManager).
Variables (on : bool) (vo ve : string).

Hypothesis Hd : forall l, ds !! l = hdict (heap w) l.
Hypothesis Hs : session w self m vo ve.
Hypothesis Hm : in_mode on w m.
Hypothesis Hro : host_stream w (_old (_out m)).
Hypothesis Hre : host_stream w (_old (_err m)).

Lemma step_start_active :
  run_call self CStart w = (Raise AssertionError, w).
Proof.
  simpl. unfold bind.
  now rewrite (start_capturing_active self w m (ses_facade _ _ _ _ _ Hs)).
Qed.

Lemma step_stop_active :
  fst (run_call self CStop w) = Ok None /\
  refines self (Machine None ds) (snd (run_call self CStop w)).
Proof.
  simpl. unfold bind. rewrite (stop_capturing_spec self w m vo ve Hs). simpl.
  split; [reflexivity|].
  pose proof Hs as [Hf Hno Hne Ho He Hsep].
  destruct Hro as [d_o Hdo], Hre as [de Hde].
  apply refines_idle; simpl.
  - intros l. rewrite Hd. symmetry. revert l.
    apply hdict_store;
      [apply hdict_store; [apply hdict_store; [reflexivity| |]| |]| |];
      try (intros i E; discriminate E);
      eapply hdict_other; try eassumption; intros i E; discriminate E.
  - apply lookup_insert_eq.
  - exists (_old (_out m)). split.
    + simpl. rewrite <- Hno.
      rewrite lookup_insert_ne by (rewrite Hno, Hne; discriminate).
      apply lookup_insert_eq.
    + exists d_o. simpl. rewrite !lookup_insert_ne by congruence. exact Hdo.
  - exists (_old (_err m)). split.
    + simpl. rewrite <- Hne. apply lookup_insert_eq.
    + exists de. simpl. rewrite !lookup_insert_ne by congruence. exact Hde.
Qed.

Lemma step_resume_active :
  fst (run_call self CResume w) = Ok None /\
  refines self (Machine (Some (true, vo, ve)) ds) (snd (run_call self CResume w)).
Proof.
  simpl. unfold bind.
  rewrite (resume_capture_spec self m w (ses_facade _ _ _ _ _ Hs)). simpl.
  split; [reflexivity|].
  apply refines_active with (m := m); try assumption.
  - now apply session_heap with (w := w).
  - now apply session_buffered_resumed with (self := self) (vo := vo) (ve := ve).
Qed.

Lemma step_suspend_active :
  fst (run_call self CSuspend w) = Ok None /\
  refines self (Machine (Some (false, vo, ve)) ds) (snd (run_call self CSuspend w)).
Proof.
  simpl. unfold bind.
  rewrite (suspend_capture_spec self m w (ses_facade _ _ _ _ _ Hs)). simpl.
  split; [reflexivity|].
  apply refines_active with (m := m); try assumption.
  - now apply session_heap with (w := w).
  - now apply session_suspended_halted with (self := self) (vo := vo) (ve := ve).
Qed.

(** A drain keeps everything but the text of the buffers. *)
Lemma drained_refines :
  refines self (Machine (Some (on, "", "")) ds) (drained m w).
Proof.
  pose proof Hs as [Hf Hno Hne Ho He Hsep].
  destruct Hro as [d_o Hdo], Hre as [de Hde].
  apply refines_active with (m := m).
  - intros l. rewrite Hd. symmetry. revert l. simpl.
    apply hdict_store; [apply hdict_store; [reflexivity| |]| |];
      try (intros i E; discriminate E);
      eapply hdict_other; try eassumption; intros i E; discriminate E.
  - constructor; try assumption.
    + rewrite drained_other by congruence. exact Hf.
    + now apply drained_out.
    + now apply drained_err.
  - destruct on; exact Hm.
  - exists d_o. rewrite drained_other by congruence. exact Hdo.
  - exists de. rewrite drained_other by congruence. exact Hde.
Qed.

Lemma step_read_active :
  fst (run_call self CRead w) = Ok (Some (vo, ve)) /\
  refines self (Machine (Some (on, "", "")) ds) (snd (run_call self CRead w)).
Proof.
  pose proof Hs as [Hf Hno Hne Ho He Hsep].
  simpl. unfold bind.
  rewrite (read_capture_spec self m w _ _ _ _ Ho He Hsep Hf). simpl.
  split; [reflexivity | apply drained_refines].
Qed.

End in_a_session.

End machine_steps.

Section machine_writes.

Variable self : loc.

(** An item assignment on a dictionary, seen from the machine. *)
Lemma refines_setitem (ds : gmap loc (gmap string pyval)) (w : world)
    (on : bool) (vo ve : string) (d : loc) (items items' : gmap string pyval) :
  refines self (Machine (Some (on, vo, ve)) ds) w ->
  heap w !! d = Some (Dict items) ->
  refines self (Machine (Some (on, vo, ve)) (<[d := items']> ds))
    (World (sys w) (<[d := Dict items']> (heap w))).
Proof.
  intros [Hd [m [Hs [Hm [Hro Hre]]]]] Hdict. simpl in Hd.
  pose proof (same_shape_dict w d items items' Hdict) as Hsh.
  apply refines_active with (m := m).
  - intros l. simpl. rewrite hdict_insert_dict.
    destruct (decide (d = l)) as [<-|Hne].
    + apply lookup_insert_eq.
    + rewrite lookup_insert_ne by exact Hne. apply Hd.
  - now apply session_shape with (w := w).
  - destruct on; exact Hm.
  - now apply host_stream_shape with (w := w).
  - now apply host_stream_shape with (w := w).
Qed.

Section in_a_session.

Variables (ds : gmap loc (gmap string pyval)) (w : world) (m : IOManager).
Variables (on : bool) (vo ve : string).

Hypothesis Hd : forall l, ds !! l = hdict (heap w) l.
Hypothesis Hs : session w self m vo ve.
Hypothesis Hro : host_stream w (_old (_out m)).
Hypothesis Hre : host_stream w (_old (_err m)).

Lemma step_write_on (c : write_cmd) :
  buffered w m ->
  fst (run_call self (CWrite c) w) = Ok None /\
  refines self
    (Machine (Some (true, vo +:+ out_text [c], ve +:+ err_text [c])) ds)
    (snd (run_call self (CWrite c) w)).
Proof.
  intros Hb.
  destruct (run_writes_buffered self m [c] w vo ve Hs Hb)
    as [w1 [Hrun [Hsys Hs1]]].
  rewrite run_writes_single in Hrun.
  pose proof (run_write_streams c w) as Hsh. rewrite Hrun in Hsh. simpl in Hsh.
  simpl run_call. unfold bind. rewrite Hrun. simpl.
  split; [reflexivity|].
  apply refines_active with (m := m).
  - intros l. rewrite Hd. symmetry. now apply hdict_streams.
  - exact Hs1.
  - unfold in_mode, buffered in *. now rewrite Hsys.
  - now apply host_stream_streams with (w := w).
  - now apply host_stream_streams with (w := w).
Qed.

Lemma step_write_off (c : write_cmd) :
  suspended w m ->
  fst (run_call self (CWrite c) w) = Ok None /\
  refines self (Machine (Some (false, vo, ve)) ds)
    (snd (run_call self (CWrite c) w)).
Proof.
  intros Hsus.
  destruct (suspended_host_channels self w m vo ve Hs Hsus Hro Hre) as [Hco Hce].
  destruct (run_writes_off [c] w Hco Hce) as [w1 [Hrun Hsim]].
  rewrite run_writes_single in Hrun.
  pose proof (run_write_streams c w) as Hsh. rewrite Hrun in Hsh. simpl in Hsh.
  simpl run_call. unfold bind. rewrite Hrun. simpl.
  split; [reflexivity|].
  apply refines_active with (m := m).
  - intros l. rewrite Hd. symmetry. now apply hdict_streams.
  - apply session_shape with (w := w); [now apply same_shape_sim | exact Hs].
  - destruct Hsim as [Hsys _]. unfold in_mode, suspended in *. now rewrite <- Hsys.
  - now apply host_stream_sim with (w := w).
  - now apply host_stream_sim with (w := w).
Qed.

(** The writes of a scope, after its [resume_capture]. *)
Lemma scope_writes (ws : list write_cmd) :
  exists w1 : world,
    run_writes ws (resumed m w) = (Ok tt, w1) /\
    (forall l, ds !! l = hdict (heap w1) l) /\
    session w1 self m (vo +:+ out_text ws) (ve +:+ err_text ws) /\
    host_stream w1 (_old (_out m)) /\ host_stream w1 (_old (_err m)).
Proof.
  assert (Hs0 : session (resumed m w) self m vo ve)
    by (now apply session_heap with (w := w)).
  pose proof (session_buffered_resumed self m w vo ve Hs) as Hb0.
  destruct (run_writes_buffered self m ws (resumed m w) vo ve Hs0 Hb0)
    as [w1 [Hrun [Hsys Hs1]]].
  pose proof (run_writes_streams ws (resumed m w)) as Hsh.
  rewrite Hrun in Hsh. simpl in Hsh.
  exists w1. split; [exact Hrun|]. split; [|split; [exact Hs1|split]].
  - intros l. rewrite Hd. symmetry.
    apply (hdict_streams (resumed m w) w1 l Hsh).
  - apply (host_stream_streams (resumed m w) w1 _ Hsh). exact Hro.
  - apply (host_stream_streams (resumed m w) w1 _ Hsh). exact Hre.
Qed.

Lemma step_scope_fail (d : loc) (ws : list write_cmd) (tag : nat) :
  fst (run_call self (CScope d ws (Some tag)) w) = Raise (Failure tag) /\
  refines self
    (Machine (Some (false, vo +:+ out_text ws, ve +:+ err_text ws)) ds)
    (snd (run_call self (CScope d ws (Some tag)) w)).
Proof.
  destruct (scope_writes ws) as [w1 [Hrun [Hd1 [Hs1 [Hro1 Hre1]]]]].
  pose proof (ses_facade _ _ _ _ _ Hs) as Hf.
  pose proof (ses_facade _ _ _ _ _ Hs1) as Hf1.
  assert (Hcap : capture self d (writes_then_fail ws tag) w
                 = (Raise (Failure tag), halted m w1)).
  { unfold capture, bind at 1.
    rewrite (resume_capture_spec self m w Hf).
    unfold bind at 1. unfold try_finally, writes_then_fail, bind at 1.
    rewrite Hrun. unfold raise.
    now rewrite (suspend_capture_spec self m w1 Hf1). }
  simpl run_call. unfold bind. rewrite Hcap. simpl.
  split; [reflexivity|].
  apply refines_active with (m := m); try assumption.
  - now apply session_heap with (w := w1).
  - now apply session_suspended_halted
      with (self := self) (vo := vo +:+ out_text ws) (ve := ve +:+ err_text ws).
Qed.

Lemma step_scope_done (d : loc) (ws : list write_cmd) :
  fst (run_call self (CScope d ws None) w)
  = fst (model_call (CScope d ws None) (Machine (Some (on, vo, ve)) ds)) /\
  refines self
    (snd (model_call (CScope d ws None) (Machine (Some (on, vo, ve)) ds)))
    (snd (run_call self (CScope d ws None) w)).
Proof.
  destruct (scope_writes ws) as [w1 [Hrun [Hd1 [Hs1 [Hro1 Hre1]]]]].
  pose proof (ses_facade _ _ _ _ _ Hs) as Hf.
  pose proof Hs1 as [Hf1 Hno Hne Ho1 He1 Hsep].
  assert (Hs2 : session (halted m w1) self m (vo +:+ out_text ws) (ve +:+ err_text ws))
    by (now apply session_heap with (w := w1)).
  assert (Hm2 : in_mode false (halted m w1) m)
    by (now apply session_suspended_halted
          with (self := self) (vo := vo +:+ out_text ws) (ve := ve +:+ err_text ws)).
  pose proof (drained_refines self ds (halted m w1) m false _ _ Hd1 Hs2 Hm2 Hro1 Hre1)
    as Hr2.
  assert (Hcap : capture self d (run_writes ws) w
                 = (do setitem d "out" (VStr (vo +:+ out_text ws)) in
                    setitem d "err" (VStr (ve +:+ err_text ws)))
                     (drained m (halted m w1))).
  { unfold capture, bind at 1.
    rewrite (resume_capture_spec self m w Hf).
    unfold bind at 1. unfold try_finally.
    rewrite Hrun, (suspend_capture_spec self m w1 Hf1).
    unfold bind at 1.
    now rewrite (read_capture_spec self m (halted m w1) _ _ _ _ Ho1 He1 Hsep Hf1). }
  simpl run_call. unfold bind. rewrite Hcap.
  simpl model_call.
  pose proof (proj1 Hr2 d) as Hdd. cbn [dicts_of] in Hdd.
  destruct (ds !! d) as [items|] eqn:Hds.
  - symmetry in Hdd. apply hdict_some in Hdd.
    unfold bind, setitem. rewrite Hdd. simpl.
    rewrite lookup_insert_eq. simpl. rewrite insert_insert_eq.
    split; [reflexivity|].
    now apply (refines_setitem ds (drained m (halted m w1)) false "" "" d items).
  - assert (Hno_dict : setitem d "out" (VStr (vo +:+ out_text ws))
                         (drained m (halted m w1))
                       = (Raise TypeError, drained m (halted m w1))).
    { unfold setitem. unfold hdict in Hdd.
      destruct (heap (drained m (halted m w1)) !! d) as [[?|?|?|?]|];
        try reflexivity. discriminate Hdd. }
    unfold bind. rewrite Hno_dict. simpl. split; [reflexivity | exact Hr2].
Qed.

End in_a_session.

End machine_writes.

Section machine_idle.

Variable self : loc.
Variables (ds : gmap loc (gmap string pyval)) (w : world).

Hypothesis Hd : forall l, ds !! l = hdict (heap w) l.
Hypothesis Hf : heap w !! self = Some (Facade None).
Hypothesis Hco : host_channel w "stdout".
Hypothesis Hce : host_channel w "stderr".

Lemma step_start_idle :
  fst (run_call self CStart w) = Ok None /\
  refines self (Machine (Some (true, "", "")) ds) (snd (run_call self CStart w)).
Proof.
  destruct Hco as [lo [Hlo [d_o Hdo]]], Hce as [le [Hle [de Hde]]].
  simpl. unfold bind.
  rewrite (start_capturing_spec self w lo le Hf Hlo Hle). simpl.
  split; [reflexivity|].
  destruct (started_session self w lo le Hf) as [Hs Hb].
  apply refines_active with (m := new_manager w lo le).
  - intros l. rewrite Hd. symmetry. revert l.
    apply hdict_store;
      [apply hdict_store; [apply hdict_store; [reflexivity| |]| |]| |];
      try (intros i E; discriminate E).
    + apply hdict_unbound, first_buffer_unbound.
    + apply hdict_unbound, second_buffer_unbound.
    + eapply hdict_other; [exact Hf | intros i E; discriminate E].
  - exact Hs.
  - exact Hb.
  - exists d_o. now apply started_other.
  - exists de. now apply started_other.
Qed.

(** What writes with no session leave. *)
Lemma idle_writes (ws : list write_cmd) :
  exists w1 : world,
    run_writes ws w = (Ok tt, w1) /\ refines self (Machine None ds) w1.
Proof.
  destruct (run_writes_off ws w Hco Hce) as [w1 [Hrun Hsim]].
  pose proof (run_writes_streams ws w) as Hsh. rewrite Hrun in Hsh. simpl in Hsh.
  exists w1. split; [exact Hrun|].
  apply refines_idle.
  - intros l. rewrite Hd. symmetry. now apply hdict_streams.
  - now apply facade_streams with (w := w).
  - now apply host_channel_sim with (w := w).
  - now apply host_channel_sim with (w := w).
Qed.

Lemma step_write_idle (c : write_cmd) :
  fst (run_call self (CWrite c) w) = Ok None /\
  refines self (Machine None ds) (snd (run_call self (CWrite c) w)).
Proof.
  destruct (idle_writes [c]) as [w1 [Hrun Hr]].
  rewrite run_writes_single in Hrun.
  simpl run_call. unfold bind. rewrite Hrun. simpl. now split.
Qed.

Lemma step_scope_idle (d : loc) (ws : list write_cmd) (fail : option nat) :
  fst (run_call self (CScope d ws fail) w) = Raise AttributeError /\
  refines self (Machine None ds) (snd (run_call self (CScope d ws fail) w)).
Proof.
  destruct (idle_writes ws) as [w1 [Hrun Hr]].
  pose proof Hr as [_ [Hf1 _]]. simpl in Hf1.
  destruct fail as [tag|]; simpl run_call; unfold capture, bind;
    rewrite (resume_capture_idle self w Hf);
    unfold try_finally, writes_then_fail, bind, raise;
    rewrite Hrun, (suspend_capture_idle self w1 Hf1); simpl; now split.
Qed.

End machine_idle.

Section machine.

Variable self : loc.

Lemma dicts_in_spec (w : world) (l : loc) : dicts_in w !! l = hdict (heap w) l.
Proof.
  unfold dicts_in, hdict. rewrite lookup_omap.
  now destruct (heap w !! l) as [[?|?|?|?]|].
Qed.

(** One call: the code answers what the machine answers, and lands in
    the state the machine lands in. *)
Lemma run_call_refines (c : call) (a : machine) (w : world) :
  refines self a w ->
  fst (run_call self c w) = fst (model_call c a) /\
  refines self (snd (model_call c a)) (snd (run_call self c w)).
Proof.
  intros Hr. pose proof Hr as [Hd Hst].
  destruct a as [[[[on vo] ve]|] ds]; simpl in Hd, Hst.
  - destruct Hst as [m [Hs [Hm [Hro Hre]]]].
    destruct c as [| | | | |c|d ws [tag|]].
    + rewrite (step_start_active self w m vo ve Hs). now split.
    + now apply step_stop_active with (m := m) (vo := vo) (ve := ve).
    + now apply step_resume_active with (m := m).
    + now apply step_suspend_active with (m := m).
    + now apply step_read_active with (m := m).
    + destruct on.
      * now apply step_write_on with (m := m).
      * now apply step_write_off with (m := m).
    + now apply step_scope_fail with (m := m).
    + now apply step_scope_done with (m := m).
  - destruct Hst as [Hf [Hco Hce]].
    destruct c as [| | | | |c|d ws fail].
    + now apply step_start_idle.
    + simpl. unfold stop_capturing, bind, get_capture. rewrite Hf. now split.
    + simpl. unfold bind. rewrite (resume_capture_idle self w Hf). now split.
    + simpl. unfold bind. rewrite (suspend_capture_idle self w Hf). now split.
    + simpl. unfold bind. rewrite (read_capture_idle self w Hf). now split.
    + now apply step_write_idle.
    + destruct fail as [tag|]; now apply step_scope_idle.
Qed.

Lemma run_calls_refine (cs : list call) :
  forall (a : machine) (w : world),
    refines self a w ->
    fst (run_calls self cs w) = fst (model_calls cs a) /\
    refines self (snd (model_calls cs a)) (snd (run_calls self cs w)).
Proof.
  induction cs as [|c cs IH]; intros a w Hr; simpl; [now split|].
  destruct (run_call_refines c a w Hr) as [H1 H2].
  destruct (run_call self c w) as [r w1], (model_call c a) as [r' a1].
  simpl in H1, H2. subst r'.
  destruct (IH a1 w1 H2) as [H3 H4].
  destruct (run_calls self cs w1) as [rs w2], (model_calls cs a1) as [rs' a2].
  simpl in *. subst rs'. now split.
Qed.

(** Every well-formed world is in some state of the machine. *)
Lemma well_formed_refines (w : world) :
  well_formed self w -> exists a : machine, refines self a w.
Proof.
  intros [[m|] [Hf Hc]].
  - destruct Hc as [[vo [ve Hs]] [Hro [Hre [Hb|Hsus]]]].
    + exists (Machine (Some (true, vo, ve)) (dicts_in w)).
      apply refines_active with (m := m); try assumption.
      apply dicts_in_spec.
    + exists (Machine (Some (false, vo, ve)) (dicts_in w)).
      apply refines_active with (m := m); try assumption.
      apply dicts_in_spec.
  - destruct Hc as [Hco Hce].
    exists (Machine None (dicts_in w)).
    apply refines_idle; try assumption. apply dicts_in_spec.
Qed.

End machine.

(** X11.  Seen from its caller the code is a small state machine: no
    session, or a session with capture on or off and one text per
    channel.  Started in a world that is in the state [a], any sequence of
    calls, scopes and prints gets from the code, call by call, the answer
    or the exception the machine gives -- what each [read_capture]
    returns included -- and ends in the machine's final state, every
    dictionary holding what the machine says it holds. *)
Theorem X11_refines_the_machine
    (self : loc) (cs : list call) (a : machine) (w : world) :
  refines self a w ->
  fst (run_calls self cs w) = fst (model_calls cs a) /\
  refines self (snd (model_calls cs a)) (snd (run_calls self cs w)).
Proof. apply run_calls_refine. Qed.

Lemma X11_witness :
  fst (run_calls io_capture
         [CWrite (to_stdout "x"); CStart; CWrite (to_stdout "a"); CSuspend;
          CWrite (to_stdout "b"); CScope used_dict [to_stderr "c"] None; CRead]
         w_idle)
  = fst (model_calls
           [CWrite (to_stdout "x"); CStart; CWrite (to_stdout "a"); CSuspend;
            CWrite (to_stdout "b"); CScope used_dict [to_stderr "c"] None; CRead]
           (Machine None (dicts_in w_idle))) /\
  refines io_capture
    (snd (model_calls
            [CWrite (to_stdout "x"); CStart; CWrite (to_stdout "a"); CSuspend;
             CWrite (to_stdout "b"); CScope used_dict [to_stderr "c"] None; CRead]
            (Machine None (dicts_in w_idle))))
    (snd (run_calls io_capture
            [CWrite (to_stdout "x"); CStart; CWrite (to_stdout "a"); CSuspend;
             CWrite (to_stdout "b"); CScope used_dict [to_stderr "c"] None; CRead]
            w_idle)).
Proof.
  apply (X11_refines_the_machine io_capture
           [CWrite (to_stdout "x"); CStart; CWrite (to_stdout "a"); CSuspend;
            CWrite (to_stdout "b"); CScope used_dict [to_stderr "c"] None; CRead]
           (Machine None (dicts_in w_idle)) w_idle).
  split; [apply dicts_in_spec|]. simpl.
  split; [vm_compute; reflexivity|]. split.
  - exists 2%positive. split; [vm_compute; reflexivity|].
    exists "". vm_compute; reflexivity.
  - exists 3%positive. split; [vm_compute; reflexivity|].
    exists "". vm_compute; reflexivity.
Defined.

(** ** Output is blocked while capture is on *)

Section blocking.

Variables (self : loc) (m : IOManager).

(** With capture on, writes change the two buffers and nothing else. *)
Lemma run_writes_on_frame (ws : list write_cmd) :
  forall (w : world) (vo ve : string),
    session w self m vo ve ->
    buffered w m ->
    forall l : loc,
      l ≠ tmp_io (_out m) -> l ≠ tmp_io (_err m) ->
      heap (snd (run_writes ws w)) !! l = heap w !! l.
Proof.
  induction ws as [|c ws IH]; intros w vo ve Hs Hb l Hlo Hle; [reflexivity|].
  destruct (run_writes_buffered self m [c] w vo ve Hs Hb)
    as [w0 [Hrun0 [Hsys0 Hs0]]].
  rewrite run_writes_single in Hrun0.
  assert (Hb0 : buffered w0 m) by (unfold buffered in *; now rewrite Hsys0).
  assert (Hstep : heap w0 !! l = heap w !! l).
  { pose proof Hs as [_ Hno Hne Ho He _]. destruct Hb as [Hbo Hbe].
    rewrite Hno in Hbo. rewrite Hne in Hbe.
    destruct c as [s|s]; simpl in Hrun0.
    - rewrite (sys_write_buffer "stdout" _ vo s w Hbo Ho) in Hrun0.
      injection Hrun0 as <-. simpl. now rewrite lookup_insert_ne by congruence.
    - rewrite (sys_write_buffer "stderr" _ ve s w Hbe He) in Hrun0.
      injection Hrun0 as <-. simpl. now rewrite lookup_insert_ne by congruence. }
  simpl. unfold bind. rewrite Hrun0. rewrite <- Hstep.
  now apply IH with (vo := vo +:+ out_text [c]) (ve := ve +:+ err_text [c]).
Qed.

Lemma bind_ret_snd {A B} (c : M A) (b : B) (w : world) :
  snd (bind c (fun _ => ret b) w) = snd (c w).
Proof. unfold bind. now destruct (c w) as [[a|e] w1]. Qed.

(** Item assignments leave host streams alone. *)
Lemma setitems_console (d : loc) (k1 k2 : string) (v1 v2 : pyval)
    (w : world) (l : loc) (t : string) :
  heap w !! l = Some (Console t) ->
  heap (snd ((do setitem d k1 v1 in setitem d k2 v2) w)) !! l = Some (Console t).
Proof.
  intros Hl. unfold bind, setitem.
  destruct (heap w !! d) as [[?|?|items|?]|] eqn:Hd; try exact Hl.
  simpl. rewrite lookup_insert_eq. simpl.
  now rewrite !lookup_insert_ne by congruence.
Qed.

(** A whole scope, failing or not, leaves every host stream as it was. *)
Lemma scope_blocks (out_buf : loc) (ws : list write_cmd) (fail : option nat)
    (w : world) (vo ve : string) (l : loc) (d : string) :
  session w self m vo ve ->
  heap w !! l = Some (Console d) ->
  heap (snd (run_call self (CScope out_buf ws fail) w)) !! l = Some (Console d).
Proof.
  intros Hs Hl.
  assert (Hs0 : session (resumed m w) self m vo ve)
    by (now apply session_heap with (w := w)).
  pose proof (session_buffered_resumed self m w vo ve Hs) as Hb0.
  destruct (run_writes_buffered self m ws (resumed m w) vo ve Hs0 Hb0)
    as [w1 [Hrun [Hsys Hs1]]].
  pose proof Hs as [Hf _ _ Ho He _].
  pose proof Hs1 as [Hf1 Hno Hne Ho1 He1 Hsep].
  assert (Hl1 : heap w1 !! l = Some (Console d)).
  { pose proof (run_writes_on_frame ws (resumed m w) vo ve Hs0 Hb0 l) as Hfr.
    rewrite Hrun in Hfr. simpl in Hfr. rewrite Hfr by congruence. exact Hl. }
  destruct fail as [tag|]; simpl run_call; rewrite bind_ret_snd.
  - assert (Hcap : capture self out_buf (writes_then_fail ws tag) w
                   = (Raise (Failure tag), halted m w1)).
    { unfold capture, bind at 1.
      rewrite (resume_capture_spec self m w Hf).
      unfold bind at 1. unfold try_finally, writes_then_fail, bind at 1.
      rewrite Hrun. unfold raise.
      now rewrite (suspend_capture_spec self m w1 Hf1). }
    rewrite Hcap. exact Hl1.
  - assert (Hcap : capture self out_buf (run_writes ws) w
                   = (do setitem out_buf "out" (VStr (vo +:+ out_text ws)) in
                      setitem out_buf "err" (VStr (ve +:+ err_text ws)))
                       (drained m (halted m w1))).
    { unfold capture, bind at 1.
      rewrite (resume_capture_spec self m w Hf).
      unfold bind at 1. unfold try_finally.
      rewrite Hrun, (suspend_capture_spec self m w1 Hf1).
      unfold bind at 1.
      now rewrite (read_capture_spec self m (halted m w1) _ _ _ _ Ho1 He1 Hsep Hf1). }
    rewrite Hcap. apply setitems_console.
    rewrite drained_other by congruence. exact Hl1.
Qed.

End blocking.

(** X12.  Capture blocks output.  In a session, nothing that is written
    inside a scope reaches a host stream: after the scope, whether its
    unit of work completed or failed, every host stream holds exactly
    what it held before the scope. *)
Theorem X12_scope_blocks_output
    (self out_buf : loc) (m : IOManager) (w : world) (vo ve : string)
    (ws : list write_cmd) (fail : option nat) (l : loc) (d : string) :
  session w self m vo ve ->
  heap w !! l = Some (Console d) ->
  heap (snd (run_call self (CScope out_buf ws fail) w)) !! l = Some (Console d).
Proof. apply scope_blocks. Qed.

Lemma X12_witness :
  heap (snd (run_call io_capture
               (CScope result_dict [to_stdout "a"; to_stderr "b"] None)
               w_suspended)) !! 2%positive
  = Some (Console "").
Proof.
  apply (X12_scope_blocks_output io_capture result_dict manager0 w_suspended
           "hello" "oops" [to_stdout "a"; to_stderr "b"] None 2%positive "").
  - constructor; vm_compute; first [reflexivity | lia].
  - vm_compute; reflexivity.
Defined.
